(** * PopUI: the MCP bridge of [server.ts]

  A shallow embedding of the three pieces of [startMcp]:
  - the [pop-ui] tool handler (modes show / get / set / describe),
  - the [ui://list] resource callback,
  - the [POST /messages] router over the map of open SSE transports.

  The handler talks to the outside world through [./main] (the window
  store), [node:fs] and the MCP server object.  Those calls are kept as an
  interface ([Env]); every call the handler issues is appended to a log,
  so that the order of effects can be stated. *)

From Stdlib Require Import Ascii.
From stdpp Require Import base option list strings gmap fin_maps.

(** ** JavaScript values as the handler sees them *)

Module Js.

(** The double quote character, for the messages that quote a name. *)
Definition dq : string := String "034"%char EmptyString.

(** [`${v}`] for [v : string | null]. *)
Definition template (v : option string) : string :=
  match v with
  | Some s => s
  | None => "null"
  end.

(** [`${v}`] for [v : string | undefined]. *)
Definition template_undef (v : option string) : string :=
  match v with
  | Some s => s
  | None => "undefined"
  end.

End Js.

(** ** [path]: the posix functions the server uses *)

Module Path.

(** A string cut at every ["/"]. *)
Fixpoint segments (s : string) : list string :=
  match s with
  | EmptyString => [EmptyString]
  | String a s' =>
      if decide (a = "/"%char) then EmptyString :: segments s'
      else match segments s' with
           | seg :: rest => String a seg :: rest
           | [] => [String a EmptyString]
           end
  end.

(** One segment of [path.normalize] on an absolute path: empty and ["."]
    segments vanish, [".."] drops the last directory (and is lost at the
    root), any other segment is appended. *)
Definition path_step (acc : list string) (seg : string) : list string :=
  if decide (seg = "" ∨ seg = ".") then acc
  else if decide (seg = "..") then removelast acc
  else acc ++ [seg].

Definition normalize (segs : list string) : list string :=
  fold_left path_step segs [].

(** [path.join(dir, file)] for an absolute [dir] given by its segments:
    the normal form of [dir + "/" + file]. *)
Definition path_join (dir : list string) (file : string) : list string :=
  normalize (dir ++ segments file).

(** The last component of a path: what stands between the last separator
    and the end, once the separators that end the path are set aside;
    [''] when the path holds nothing else. *)
Definition last_component (p : string) : string :=
  default "" (last (filter (fun seg => seg ≠ "") (segments p))).

(** Whether a string is made of separators only. *)
Fixpoint all_seps (s : string) : bool :=
  match s with
  | EmptyString => true
  | String a s' => bool_decide (a = "/"%char) && all_seps s'
  end.

(** The separators that end a path. *)
Fixpoint trailing_seps (s : string) : string :=
  match s with
  | EmptyString => EmptyString
  | String a s' => if all_seps s then s else trailing_seps s'
  end.

(** The suffix of [s] that starts at its last ["."], if there is one. *)
Fixpoint last_dot_ext (s : string) : option string :=
  match s with
  | EmptyString => None
  | String a s' =>
      match last_dot_ext s' with
      | Some e => Some e
      | None => if decide (a = "."%char) then Some s else None
      end
  end.

(** The extension of one component: from its last dot to the end; empty
    when there is no dot, when the only dot is the first character, and for
    [".."]. *)
Definition ext_of (c : string) : string :=
  if decide (c = "..") then ""
  else match c with
       | EmptyString => ""
       | String _ rest => default "" (last_dot_ext rest)
       end.

(** [path.extname(p)]: the extension of the last component of [p]. *)
Definition extname (p : string) : string := ext_of (last_component p).

(** [Some pre] when [s = pre ++ ext]. *)
Fixpoint strip_suffix (ext s : string) : option string :=
  if decide (s = ext) then Some EmptyString
  else match s with
       | EmptyString => None
       | String a s' => String a <$> strip_suffix ext s'
       end.

(** [path.basename(p, ext)].  Without [ext], or with one longer than [p]:
    the last component.  Node answers [''] when the whole argument is
    [ext].  Otherwise it walks the last component from its end, against
    [ext]: a component that ends in [ext] loses it, unless nothing would
    be left; a component that differs from [ext] at some character is
    kept; and one that runs out first, being the end of [ext], is answered
    together with the separators that follow it. *)
Definition basename (p ext : string) : string :=
  let c := last_component p in
  if decide (ext = "" ∨ String.length p < String.length ext) then c
  else if decide (p = ext) then ""
  else match strip_suffix ext c with
       | Some pre => if decide (pre = "") then c else pre
       | None =>
           if decide (is_Some (strip_suffix c ext))
           then c +:+ trailing_seps p
           else c
       end.

(** Whether a string holds a ["/"]. *)
Fixpoint has_sep (s : string) : bool :=
  match s with
  | EmptyString => false
  | String a s' => bool_decide (a = "/"%char) || has_sep s'
  end.

End Path.

(** ** Effects: results, the call log and the handler monad *)

Module Effects.

(** An awaited call either yields a value or rejects. *)
Inductive Outcome (A : Type) : Type :=
| Returned (a : A)
| Threw (e : string).
Arguments Returned {A} a.
Arguments Threw {A} e.

(** The calls a tool invocation issues, as they appear in [server.ts]. *)
Inductive Event : Type :=
| EReadWindow (name : string)
| EInjectWindow (name : string) (json : option string)
| EDescribeWindow (name : string)
| EListFiles
| EWriteFile (path : list string) (data : string)
| ENotification (method : string)
| EOpenFile (path : list string).

#[global] Instance Event_eq_dec : EqDecision Event.
Proof. solve_decision. Defined.

(** What [server.ts] imports and does not define: the window store of
    [./main], and [fs.promises.writeFile].  [W] is the state of the world
    they act on.  [readWindow], [injectWindow] and [describeWindow] resolve
    to a string or to [null]; [openFile] is not awaited. *)
Record Env (W : Type) : Type := {
  readWindow : string → W → Outcome (option string) * W;
  injectWindow : string → option string → W → Outcome (option string) * W;
  describeWindow : string → W → Outcome (option string) * W;
  openFile : list string → W → W;
  listFiles : W → Outcome (list string) * W;
  writeFile : list string → string → W → Outcome unit * W
}.
Arguments readWindow {W} _ _ _.
Arguments injectWindow {W} _ _ _ _.
Arguments describeWindow {W} _ _ _.
Arguments openFile {W} _ _ _.
Arguments listFiles {W} _ _.
Arguments writeFile {W} _ _ _ _.

(** The world together with the log of calls, oldest first. *)
Record Sys (W : Type) : Type := {
  world : W;
  calls : list Event
}.
Arguments Build_Sys {W} _ _.
Arguments world {W} _.
Arguments calls {W} _.

Definition M (W A : Type) : Type := Sys W → Outcome A * Sys W.

Definition ret {W A} (a : A) : M W A := fun s => (Returned a, s).

Definition bind {W A B} (m : M W A) (k : A → M W B) : M W B :=
  fun s =>
    match m s with
    | (Returned a, s') => k a s'
    | (Threw e, s') => (Threw e, s')
    end.

(** An awaited call: logged, then run on the world. *)
Definition await {W A} (ev : Event) (f : W → Outcome A * W) : M W A :=
  fun s =>
    let (r, w') := f (world s) in
    (r, {| world := w'; calls := calls s ++ [ev] |}).

(** A call that is fired and not awaited. *)
Definition fire {W} (ev : Event) (f : W → W) : M W unit :=
  fun s => (Returned tt, {| world := f (world s); calls := calls s ++ [ev] |}).

End Effects.

Declare Scope handler_scope.
Delimit Scope handler_scope with handler.
Notation "'let!' x ':=' m 'in' k" := (Effects.bind m (fun x => k))
  (at level 10, x name, m at level 100, k at level 200) : handler_scope.
Notation "'run!' m 'in' k" := (Effects.bind m (fun _ => k))
  (at level 10, m at level 100, k at level 200) : handler_scope.

(** ** The [pop-ui] tool handler *)

Module Dispatcher.
Import Effects.
Local Open Scope handler_scope.

(** [z.enum(["show", "get", "set", "describe"])]: the schema admits no other
    value, and [.optional()] lets the handler see [undefined]. *)
Inductive Mode : Type := Show | Get | Set_ | Describe.

(** The result object: the text of its single content item, and [isError]. *)
Record ToolResult : Type := {
  text : string;
  isError : bool
}.

#[global] Instance ToolResult_eq_dec : EqDecision ToolResult.
Proof. solve_decision. Defined.

Definition tsx_required_text : string :=
  "tsx is required when mode is show and window does not exist.".

Definition not_found_text (name : string) : string :=
  "User interface named " +:+ Js.dq +:+ name +:+ Js.dq +:+ " not found.".

Definition invalid_mode_text (mode : string) : string :=
  "Invalid mode " +:+ Js.dq +:+ mode +:+ Js.dq +:+ ".".

Definition tsx_required : ToolResult :=
  {| text := tsx_required_text; isError := true |}.

Definition not_found (name : string) : ToolResult :=
  {| text := not_found_text name; isError := true |}.

Definition invalid_mode (mode : string) : ToolResult :=
  {| text := invalid_mode_text mode; isError := true |}.

(** The success result: [text: `${windowState}`, isError: false]. *)
Definition state_result (windowState : option string) : ToolResult :=
  {| text := Js.template windowState; isError := false |}.

Definition list_changed : string := "notifications/resources/list_changed".

Section Handler.

Context {W : Type}.
(** [getUploadsDir()], an absolute directory, by its segments. *)
Variable uploadsDir : list string.
Variable env : Env W.

Definition fileName (name : string) : string := name +:+ ".tsx".

Definition filePath (name : string) : list string :=
  Path.path_join uploadsDir (fileName name).

Definition await_readWindow (name : string) : M W (option string) :=
  await (EReadWindow name) (readWindow env name).

Definition await_injectWindow (name : string) (json : option string)
  : M W (option string) :=
  await (EInjectWindow name json) (injectWindow env name json).

Definition await_describeWindow (name : string) : M W (option string) :=
  await (EDescribeWindow name) (describeWindow env name).

Definition await_writeFile (path : list string) (data : string) : M W unit :=
  await (EWriteFile path data) (writeFile env path data).

Definition send_notification (method : string) : M W unit :=
  fire (ENotification method) id.

Definition call_openFile (path : list string) : M W unit :=
  fire (EOpenFile path) (openFile env path).

(** The branch [mode === "show"]. *)
Definition show (name : string) (json tsx : option string) : M W ToolResult :=
  let! windowState := await_readWindow name in
  if bool_decide (tsx = None) && bool_decide (windowState = None)
  then ret tsx_required
  else
    let! windowState :=
      match tsx with
      | Some data =>
          run! await_writeFile (filePath name) data in
          run! send_notification list_changed in
          ret windowState
      | None =>
          match json with
          | Some j => await_injectWindow name (Some j)
          | None => ret windowState
          end
      end in
    run! call_openFile (filePath name) in
    ret (state_result windowState).

(** The three branches that answer "not found" on [null]. *)
Definition answer (name : string) (windowState : option string) : ToolResult :=
  match windowState with
  | None => not_found name
  | Some _ => state_result windowState
  end.

Definition set_ (name : string) (json : option string) : M W ToolResult :=
  let! windowState := await_injectWindow name json in
  ret (answer name windowState).

Definition get (name : string) : M W ToolResult :=
  let! windowState := await_readWindow name in
  ret (answer name windowState).

Definition describe (name : string) : M W ToolResult :=
  let! windowState := await_describeWindow name in
  ret (answer name windowState).

(** The handler [async ({name, mode, json, tsx}) => ...]. *)
Definition pop_ui (name : string) (mode : option Mode)
    (json tsx : option string) : M W ToolResult :=
  match mode with
  | Some Show => show name json tsx
  | Some Set_ => set_ name json
  | Some Get => get name
  | Some Describe => describe name
  | None => ret (invalid_mode (Js.template_undef None))
  end.

(** The calls of a show that carries content and runs to its end. *)
Definition show_content_calls (name data : string) : list Event :=
  [EReadWindow name; EWriteFile (filePath name) data;
   ENotification list_changed; EOpenFile (filePath name)].

End Handler.

(** An invocation succeeds when it resolves to a result that is not flagged
    as an error. *)
Definition succeeds (o : Outcome ToolResult) : Prop :=
  ∃ r, o = Returned r ∧ isError r = false.

(** In a log, [later] is issued at some point after [earlier]. *)
Definition issued_after (earlier later : Event) (log : list Event) : Prop :=
  ∃ pre post, log = pre ++ earlier :: post ∧ later ∈ post.

End Dispatcher.

(** ** The [ui://list] resource *)

Module Lister.
Import Effects.
Local Open Scope handler_scope.

(** [files.filter(f => path.extname(f) === '.tsx')
         .map(f => path.basename(f, '.tsx'))]. *)
Definition windowNames (files : list string) : list string :=
  (fun f => Path.basename f ".tsx") <$>
    filter (fun f => Path.extname f = ".tsx") files.

(** The single content item of the answer.  Its text is
    [JSON.stringify(windowNames, null, 2)]; the array itself is kept. *)
Record ResourceContents : Type := {
  uri : string;
  listing : list string
}.

Definition ui_list {W} (env : Env W) (href : string) : M W ResourceContents :=
  let! files := await EListFiles (listFiles env) in
  ret {| uri := href; listing := windowNames files |}.

End Lister.

(** ** The window store and the uploads directory *)

Module SpecStore.
Import Effects.

(** Modelled from the spec: [./main] is not part of the sources at hand.
    A named surface has a live state, absent until the rendering process
    reports one, and an optional schema of that state. *)
Record Surface : Type := {
  live : option string;
  schema : option string
}.

(** The directories and regular files of the disk, by absolute path, and the
    windows the store holds, by name. *)
Record World : Type := {
  dirs : gset (list string);
  files : gmap (list string) string;
  windows : gmap string Surface
}.

Definition with_files (w : World) (fs : gmap (list string) string) : World :=
  {| dirs := dirs w; files := fs; windows := windows w |}.

Definition with_windows (w : World) (ws : gmap string Surface) : World :=
  {| dirs := dirs w; files := files w; windows := ws |}.

(** What the store answers for the live state of a name: [null] when it
    holds no window of that name, and for a window its live state as text,
    which is the text of [null] while the window has reported nothing. *)
Definition live_of (w : World) (name : string) : option string :=
  (fun sf => Js.template (live sf)) <$> windows w !! name.

Definition schema_of (w : World) (name : string) : option string :=
  (fun sf => Js.template (schema sf)) <$> windows w !! name.

(** Modelled from the spec: reading the live state of a surface as text;
    [null] when the surface is absent, that is, when the store holds no
    window of that name. *)
Definition readWindow (name : string) (w : World)
  : Outcome (option string) * World :=
  (Returned (live_of w name), w).

(** Modelled from the spec: reading the schema of a surface as text; [null]
    when the surface is absent. *)
Definition describeWindow (name : string) (w : World)
  : Outcome (option string) * World :=
  (Returned (schema_of w name), w).

(** Modelled from the spec: writing the live state of a surface and answering
    the updated state; [null], and nothing written, when the store holds no
    such window.  The spec has no contract for an absent value: the model
    leaves the live state as it is and answers it as a read does. *)
Definition injectWindow (name : string) (json : option string) (w : World)
  : Outcome (option string) * World :=
  match windows w !! name with
  | None => (Returned None, w)
  | Some sf =>
      match json with
      | Some v =>
          (Returned (Some v),
           with_windows w
             (<[name := {| live := Some v; schema := schema sf |}]>
                (windows w)))
      | None => (Returned (Some (Js.template (live sf))), w)
      end
  end.

(** Modelled from the spec: the request to open and render a content file.
    The window is named after the file; a new window has reported no state
    yet, an open one is brought to the front. *)
Definition openFile (path : list string) (w : World) : World :=
  match files w !! path with
  | None => w
  | Some _ =>
      let name := Path.basename (default "" (last path)) ".tsx" in
      match windows w !! name with
      | Some _ => w
      | None =>
          with_windows w
            (<[name := {| live := None; schema := None |}]> (windows w))
      end
  end.

(** Modelled from the spec: the rendering process reports the state (and the
    schema) of an open surface.  This is no call of the server: it happens
    between invocations. *)
Definition surface_reports (name state : string) (sch : option string)
    (w : World) : World :=
  match windows w !! name with
  | None => w
  | Some _ =>
      with_windows w
        (<[name := {| live := Some state; schema := sch |}]> (windows w))
  end.

(** Why a path cannot be reached: the first of its proper prefixes that
    is no directory is a regular file ([ENOTDIR]), or is not there
    ([ENOENT]). *)
Definition unreachable (path : list string) (w : World) : string :=
  match list_find (fun p => p ∉ dirs w)
          ((fun n => take n path) <$> seq 0 (length path)) with
  | Some (_, p) =>
      if decide (is_Some (files w !! p)) then "ENOTDIR" else "ENOENT"
  | None => "ENOENT"
  end.

(** [fs.promises.writeFile]: the target must not be a directory, and its
    parent must be one.  The segments of a path are taken to be names the
    disk admits. *)
Definition writeFile (path : list string) (data : string) (w : World)
  : Outcome unit * World :=
  if decide (path = [] ∨ path ∈ dirs w) then (Threw "EISDIR", w)
  else if decide (removelast path ∈ dirs w)
       then (Returned tt, with_files w (<[path := data]> (files w)))
       else (Threw (unreachable path w), w).

(** The name of [path] inside [dir], when [path] lies directly in it; the
    name of an entry holds no separator. *)
Definition entry_in (dir path : list string) : option string :=
  if decide (path ≠ [] ∧ removelast path = dir)
  then match last path with
       | Some f => if Path.has_sep f then None else Some f
       | None => None
       end
  else None.

Section Uploads.

Variable uploadsDir : list string.

(** Modelled from the spec: the names of the entries of the uploads
    directory (regular files, then sub-directories). *)
Definition listFiles (w : World) : Outcome (list string) * World :=
  let dir := Path.normalize uploadsDir in
  if decide (dir ∈ dirs w)
  then (Returned (omap (entry_in dir)
                    ((map_to_list (files w)).*1 ++ elements (dirs w))), w)
  else (Threw "ENOENT", w).

Definition env : Env World := {|
  Effects.readWindow := readWindow;
  Effects.injectWindow := injectWindow;
  Effects.describeWindow := describeWindow;
  Effects.openFile := openFile;
  Effects.listFiles := listFiles;
  Effects.writeFile := writeFile
|}.

(** The disk after the module has run [mkdirSync(uploadsDir, recursive)] on
    an empty disk, with no window open. *)
Definition boot : World := {|
  dirs := list_to_set ((fun n => take n (Path.normalize uploadsDir)) <$>
                         seq 0 (S (length (Path.normalize uploadsDir))));
  files := ∅;
  windows := ∅
|}.

End Uploads.

End SpecStore.

(** ** The SSE transports and [POST /messages] *)

Module Registry.
Import Effects.

(** A value found where a session id is looked for: a string, or any other
    JSON or query value (number, boolean, null, array, object), of which
    only the truthiness matters: it is never a key of the map. *)
Inductive Candidate : Type :=
| CStr (s : string)
| COther (truthy : bool).

(** What the handler reads of a request.  A field is [None] when it is
    [undefined]. *)
Record Request : Type := {
  body_sessionId : option Candidate;
  header_sessionId : option string;
  query_sessionId : option Candidate;
  payload : string
}.

Definition is_truthy (c : option Candidate) : bool :=
  match c with
  | None => false
  | Some (CStr s) => bool_decide (s ≠ "")
  | Some (COther b) => b
  end.

(** [sessionId] after the three checks; [None] is the initial [null]. *)
Definition find_sessionId (req : Request) : option Candidate :=
  if is_truthy (body_sessionId req) then body_sessionId req
  else if is_truthy (CStr <$> header_sessionId req)
       then CStr <$> header_sessionId req
       else if is_truthy (query_sessionId req) then query_sessionId req
            else None.

(** The HTTP answer: a JSON error written by the handler, or whatever the
    transport answers once the message is handed to it. *)
Inductive Response : Type :=
| Json (status : nat) (error : string)
| ByTransport.

Section Transports.

(** [SSEServerTransport]. *)
Variable T : Type.
(** [transport.handlePostMessage(req, res, parsedBody)]. *)
Variable handlePostMessage : T → string → Outcome unit.

(** A JS [Map]: keys are unique and keep their insertion order. *)
Fixpoint map_get (k : string) (m : list (string * T)) : option T :=
  match m with
  | [] => None
  | (k', v) :: m' => if decide (k = k') then Some v else map_get k m'
  end.

Definition map_has (k : string) (m : list (string * T)) : bool :=
  bool_decide (is_Some (map_get k m)).

Fixpoint map_set (k : string) (v : T) (m : list (string * T))
  : list (string * T) :=
  match m with
  | [] => [(k, v)]
  | (k', v') :: m' =>
      if decide (k = k') then (k, v) :: m' else (k', v') :: map_set k v m'
  end.

Definition map_delete (k : string) (m : list (string * T))
  : list (string * T) :=
  filter (fun e => e.1 ≠ k) m.

(** The map of transports, and the calls of [handlePostMessage] so far:
    the key and the transport called, and the message, oldest first. *)
Record Hub : Type := {
  transports : list (string * T);
  deliveries : list (string * T * string)
}.

(** [GET /sse]: a transport is stored under its session id. *)
Definition sse_connect (sessionId : string) (t : T) (h : Hub) : Hub :=
  {| transports := map_set sessionId t (transports h);
     deliveries := deliveries h |}.

(** The connection closes. *)
Definition sse_close (sessionId : string) (h : Hub) : Hub :=
  {| transports := map_delete sessionId (transports h);
     deliveries := deliveries h |}.

Definition hand_over (k : string) (t : T) (req : Request) (h : Hub)
  : Response * Hub :=
  let h' := {| transports := transports h;
               deliveries := deliveries h ++ [(k, t, payload req)] |} in
  match handlePostMessage t (payload req) with
  | Returned _ => (ByTransport, h')
  | Threw e => (Json 500 e, h')
  end.

(** [transports.has(sessionId)]: only a string can be a key. *)
Definition has_sessionId (sessionId : option Candidate) (h : Hub) : bool :=
  match sessionId with
  | Some (CStr s) => map_has s (transports h)
  | _ => false
  end.

(** [transports.get(sessionId)], with the key. *)
Definition get_sessionId (sessionId : option Candidate) (h : Hub)
  : option (string * T) :=
  match sessionId with
  | Some (CStr s) => (fun t => (s, t)) <$> map_get s (transports h)
  | _ => None
  end.

(** [POST /messages].  A call on [undefined] is a [TypeError], which the
    [catch] answers with status 500. *)
Definition post_messages (req : Request) (h : Hub) : Response * Hub :=
  if bool_decide (length (transports h) = 0)
  then (Json 503 "No active SSE connections", h)
  else
    let sessionId := find_sessionId req in
    if is_truthy sessionId && has_sessionId sessionId h
    then
      match get_sessionId sessionId h with
      | Some (k, transport) => hand_over k transport req h
      | None => (Json 500 "TypeError", h)
      end
    else
      match transports h with
      | (firstSessionId, transport) :: _ =>
          hand_over firstSessionId transport req h
      | [] => (Json 500 "TypeError", h)
      end.

End Transports.

Arguments map_get {T} k m.
Arguments map_has {T} k m.
Arguments map_set {T} k v m.
Arguments map_delete {T} k m.
Arguments Build_Hub {T} _ _.
Arguments transports {T} h.
Arguments deliveries {T} h.
Arguments sse_connect {T} sessionId t h.
Arguments sse_close {T} sessionId h.
Arguments hand_over {T} handlePostMessage k t req h.
Arguments post_messages {T} handlePostMessage req h.

End Registry.

(** ** A concrete installation, for examples *)

Module Demo.
Import Effects.

Definition uploads : list string := ["home"; "user"; "uploads"].

Definition env : Env SpecStore.World := SpecStore.env uploads.

(** The server has just started: the uploads directory is there and empty,
    no window is open and nothing has been called. *)
Definition start : Sys SpecStore.World :=
  {| world := SpecStore.boot uploads; calls := [] |}.

Definition panel_path : list string := ["home"; "user"; "uploads"; "panel.tsx"].

(** The world after the content ["C1"] has been written for ["panel"]. *)
Definition written : SpecStore.World :=
  SpecStore.with_files (SpecStore.boot uploads)
    (<[panel_path := "C1"]> (SpecStore.files (SpecStore.boot uploads))).

(** The system after [start] has served a first show of ["panel"] with the
    content ["C1"]. *)
Definition shown : Sys SpecStore.World :=
  {| world := SpecStore.openFile panel_path written;
     calls := [EReadWindow "panel"; EWriteFile panel_path "C1";
               ENotification Dispatcher.list_changed;
               EOpenFile panel_path] |}.

(** Two sessions, opened in the order A, B, over transports that accept
    every message. *)
Definition accept (t msg : string) : Outcome unit := Returned tt.

Definition hub_AB : Registry.Hub string :=
  Registry.sse_connect "B" "transport of B"
    (Registry.sse_connect "A" "transport of A"
       {| Registry.transports := []; Registry.deliveries := [] |}).

(** A message that names B in the header and A in the query. *)
Definition for_B : Registry.Request := {|
  Registry.body_sessionId := None;
  Registry.header_sessionId := Some "B";
  Registry.query_sessionId := Some (Registry.CStr "A");
  Registry.payload := "ping"
|}.

End Demo.

(** ** [startServer]: the plain upload endpoints *)

Module Upload.
Import Effects.

(** [path.basename(p)]: the last component of [p] that is not empty, and
    [''] when there is none. *)
Definition path_basename (p : string) : string :=
  default "" (last (filter (fun seg => seg ≠ "") (Path.segments p))).

(** [req.body.fileName]: a string, or any other JSON value, of which the
    truthiness matters. *)
Inductive NameValue : Type :=
| NStr (s : string)
| NOther (truthy : bool).

(** [req.body.fileData], a JSON value, by what [Buffer.from] makes of it:
    - an array, with its items as bytes;
    - a string, with its text;
    - an object that is no array and that [Buffer.from] turns into bytes:
      one with a [length] (its items up to that length; none when [length]
      is no number), or else one with [type: 'Buffer'] and an array [data]
      (the items of [data]);
    - any other value, on which [Buffer.from] throws: a number, a boolean,
      [null], an object without [length] that is no serialised buffer, a
      [length] that is out of range. *)
Inductive FileData : Type :=
| FArray (bytes : string)
| FString (s : string)
| FArrayLike (bytes : string)
| FOther (truthy : bool).

(** The fields of the JSON body; [None] is [undefined].  [fileType] and
    [fileSize] are only echoed. *)
Record Body : Type := {
  fileName : option NameValue;
  fileType : option string;
  fileSize : option string;
  fileData : option FileData
}.

Definition name_truthy (v : option NameValue) : bool :=
  match v with
  | None => false
  | Some (NStr s) => bool_decide (s ≠ "")
  | Some (NOther b) => b
  end.

Definition data_truthy (v : option FileData) : bool :=
  match v with
  | None => false
  | Some (FArray _) => true
  | Some (FString s) => bool_decide (s ≠ "")
  | Some (FArrayLike _) => true
  | Some (FOther b) => b
  end.

(** [Buffer.from(fileData)]; [None] is its [TypeError]. *)
Definition buffer_from (v : option FileData) : option string :=
  match v with
  | Some (FArray bytes) => Some bytes
  | Some (FString s) => Some s
  | Some (FArrayLike bytes) => Some bytes
  | Some (FOther _) | None => None
  end.

(** The answers of [POST /upload]. *)
Inductive Response : Type :=
| Uploaded (originalName : string) (size type : option string)
    (path : list string)
| Missing
| Failed (details : string).

(** The HTTP status of an answer. *)
Definition status (r : Response) : nat :=
  match r with
  | Uploaded _ _ _ _ => 200
  | Missing => 400
  | Failed _ => 500
  end.

Section Handler.

Context {W : Type}.
Variable uploadsDir : list string.
Variable env : Env W.

Definition sanitizedFileName (name : string) : string := path_basename name.

Definition filePath (name : string) : list string :=
  Path.path_join uploadsDir (sanitizedFileName name).

(** [POST /upload].  The write is [fs.writeFileSync], on the same disk as
    the write of the tool handler.  Whatever is thrown inside the [try] is
    answered with status 500 and its text. *)
Definition upload (body : Body) (s : Sys W) : Response * Sys W :=
  if negb (name_truthy (fileName body)) || negb (data_truthy (fileData body))
  then (Missing, s)
  else
    match fileName body with
    | Some (NStr name) =>
        match buffer_from (fileData body) with
        | Some fileBuffer =>
            match await (EWriteFile (filePath name) fileBuffer)
                    (writeFile env (filePath name) fileBuffer) s with
            | (Returned _, s') =>
                (Uploaded name (fileSize body) (fileType body)
                   (filePath name), s')
            | (Threw e, s') => (Failed e, s')
            end
        | None => (Failed "TypeError", s)
        end
    | _ => (Failed "TypeError", s)
    end.

End Handler.

End Upload.

(** ** [startServer]: the listing of [GET /api/files] *)

Module ApiFiles.
Import Effects.

(** One item of the answer. *)
Record Item : Type := {
  name : string;
  path : list string;
  size : nat
}.

(** The answers: the items, or status 500 with the fixed error text. *)
Inductive Response : Type :=
| Files (files : list Item)
| CouldNotRead.

Definition could_not_read_text : string := "Could not read upload directory".

Section Handler.

Context {W : Type}.
Variable uploadsDir : list string.
(** [fs.readdirSync(dir)] and [fs.statSync(path).size]. *)
Variable readdirSync : list string → W → Outcome (list string).
Variable statSize : list string → W → Outcome nat.

(** [names.map(fileName => ({name, path, size}))], where [statSync] may
    throw at any item. *)
Fixpoint items (names : list string) (w : W) : Outcome (list Item) :=
  match names with
  | [] => Returned []
  | fileName :: rest =>
      let p := Path.path_join uploadsDir fileName in
      match statSize p w with
      | Threw e => Threw e
      | Returned sz =>
          match items rest w with
          | Threw e => Threw e
          | Returned l =>
              Returned ({| name := fileName; path := p; size := sz |} :: l)
          end
      end
  end.

(** [GET /api/files]. *)
Definition api_files (w : W) : Response :=
  match readdirSync uploadsDir w with
  | Threw _ => CouldNotRead
  | Returned names =>
      match items (filter (fun f => Path.extname f = ".tsx") names) w with
      | Threw _ => CouldNotRead
      | Returned l => Files l
      end
  end.

End Handler.

End ApiFiles.

(** ** The earlier revision of the tools, kept in [server.ts] *)

Module Legacy.
Import Effects Dispatcher.
Local Open Scope handler_scope.

Definition created_text (name : string) : string :=
  "User interface named " +:+ Js.dq +:+ name +:+ Js.dq +:+
  " created and shown. Use read-ui://" +:+ name +:+
  " to retrieve the user interface data and state.".

Section Tools.

Context {W : Type}.
Variable uploadsDir : list string.
Variable env : Env W.

(** The tool [pop-ui] with the two required arguments [name] and [tsx]. *)
Definition pop_ui (name tsx : string) : M W ToolResult :=
  run! await_writeFile env (Dispatcher.filePath uploadsDir name) tsx in
  run! call_openFile env (Dispatcher.filePath uploadsDir name) in
  run! send_notification list_changed in
  ret {| text := created_text name; isError := false |}.

(** The tool [read-ui]. *)
Definition read_ui (name : string) : M W ToolResult :=
  let! windowState := await_readWindow env name in
  ret (state_result windowState).

End Tools.

End Legacy.

(** ** More sample data *)

Module Sample.
Import Effects.

(** [Demo.shown] once the surface ["panel"] has reported the state ["{}"]. *)
Definition reported : Sys SpecStore.World :=
  {| world := SpecStore.surface_reports "panel" "{}" None (world Demo.shown);
     calls := calls Demo.shown |}.

(** The world of [reported] with the state ["[1]"] injected. *)
Definition injected : SpecStore.World :=
  (SpecStore.injectWindow "panel" (Some "[1]") (world reported)).2.

(** A request that names no session. *)
Definition anonymous : Registry.Request := {|
  Registry.body_sessionId := None;
  Registry.header_sessionId := None;
  Registry.query_sessionId := None;
  Registry.payload := "ping"
|}.

(** A request whose body carries the number 7 as session id, and whose
    header names B. *)
Definition numbered : Registry.Request := {|
  Registry.body_sessionId := Some (Registry.COther true);
  Registry.header_sessionId := Some "B";
  Registry.query_sessionId := None;
  Registry.payload := "ping"
|}.

(** A transport whose handler throws. *)
Definition refuse (t msg : string) : Outcome unit := Threw "boom".

(** An upload of three bytes under a name that tries to leave the uploads
    directory. *)
Definition escaping : Upload.Body := {|
  Upload.fileName := Some (Upload.NStr "../../etc/passwd");
  Upload.fileType := Some "text/plain";
  Upload.fileSize := Some "3";
  Upload.fileData := Some (Upload.FArray "abc")
|}.

(** Where that upload lands, and the system after it. *)
Definition passwd_path : list string := ["home"; "user"; "uploads"; "passwd"].

Definition uploaded : Sys SpecStore.World :=
  {| world :=
       SpecStore.with_files (SpecStore.boot Demo.uploads)
         (<[passwd_path := "abc"]>
            (SpecStore.files (SpecStore.boot Demo.uploads)));
     calls := [EWriteFile passwd_path "abc"] |}.

(** A directory with one content file and one foreign file, each of two
    bytes. *)
Definition readdir (dir : list string) (w : unit) : Outcome (list string) :=
  Returned ["a.tsx"; "notes.txt"].

Definition stat (path : list string) (w : unit) : Outcome nat := Returned 2.

End Sample.

(** * Properties *)

(** ** The dispatcher, for any window store and any disk *)

Ltac unfold_handler :=
  unfold Dispatcher.pop_ui, Dispatcher.show, Dispatcher.set_, Dispatcher.get,
    Dispatcher.describe, Dispatcher.await_readWindow,
    Dispatcher.await_injectWindow, Dispatcher.await_describeWindow,
    Dispatcher.await_writeFile, Dispatcher.send_notification,
    Dispatcher.call_openFile, Effects.bind, Effects.await, Effects.fire,
    Effects.ret.

(** Membership in a log that is written out: one case per entry, the
    entries of another kind being dropped. *)
Ltac log_cases :=
  let Hin := fresh "Hin" in
  intros Hin;
  repeat (apply elem_of_cons in Hin as [Hin|Hin];
          [try discriminate Hin; injection Hin as -> ->|]);
  try (by apply elem_of_nil in Hin).

Section DispatcherFacts.
Import Effects Dispatcher.

Context {W : Type}.
Variable uploadsDir : list string.
Variable env : Env W.


(** A show with content, step by step. *)
Lemma show_content_run name json data s :
  pop_ui uploadsDir env name (Some Show) json (Some data) s =
  match readWindow env name (world s) with
  | (Threw e, w1) =>
      (Threw e, {| world := w1; calls := calls s ++ [EReadWindow name] |})
  | (Returned st, w1) =>
      match writeFile env (filePath uploadsDir name) data w1 with
      | (Threw e, w2) =>
          (Threw e,
           {| world := w2;
              calls := calls s ++
                [EReadWindow name;
                 EWriteFile (filePath uploadsDir name) data] |})
      | (Returned _, w2) =>
          (Returned (state_result st),
           {| world := openFile env (filePath uploadsDir name) w2;
              calls := calls s ++ show_content_calls uploadsDir name data |})
      end
  end.
Proof.
  unfold_handler. simpl.
  destruct (readWindow env name (world s)) as [[st|e] w1]; simpl; [|done].
  destruct (writeFile env (filePath uploadsDir name) data w1)
    as [[[]|e] w2]; simpl.
  - unfold show_content_calls. by rewrite <- !(assoc_L (++)).
  - by rewrite <- !(assoc_L (++)).
Qed.

(** A show without content, step by step. *)
Lemma show_bare_run name json s :
  pop_ui uploadsDir env name (Some Show) json None s =
  match readWindow env name (world s) with
  | (Threw e, w1) =>
      (Threw e, {| world := w1; calls := calls s ++ [EReadWindow name] |})
  | (Returned None, w1) =>
      (Returned tsx_required,
       {| world := w1; calls := calls s ++ [EReadWindow name] |})
  | (Returned (Some st), w1) =>
      match json with
      | None =>
          (Returned (state_result (Some st)),
           {| world := openFile env (filePath uploadsDir name) w1;
              calls := calls s ++
                [EReadWindow name; EOpenFile (filePath uploadsDir name)] |})
      | Some j =>
          match injectWindow env name (Some j) w1 with
          | (Threw e, w2) =>
              (Threw e,
               {| world := w2;
                  calls := calls s ++
                    [EReadWindow name; EInjectWindow name (Some j)] |})
          | (Returned st', w2) =>
              (Returned (state_result st'),
               {| world := openFile env (filePath uploadsDir name) w2;
                  calls := calls s ++
                    [EReadWindow name; EInjectWindow name (Some j);
                     EOpenFile (filePath uploadsDir name)] |})
          end
      end
  end.
Proof.
  unfold_handler. simpl.
  destruct (readWindow env name (world s)) as [[[st|]|e] w1]; simpl; try done.
  destruct json as [j|]; simpl.
  - destruct (injectWindow env name (Some j) w1) as [[st'|e] w2]; simpl;
      by rewrite <- !(assoc_L (++)).
  - by rewrite <- !(assoc_L (++)).
Qed.

(** The three modes that answer from one call of the store. *)
Lemma set_run name json tsx s :
  pop_ui uploadsDir env name (Some Set_) json tsx s =
  match injectWindow env name json (world s) with
  | (Returned st, w1) =>
      (Returned (answer name st),
       {| world := w1; calls := calls s ++ [EInjectWindow name json] |})
  | (Threw e, w1) =>
      (Threw e,
       {| world := w1; calls := calls s ++ [EInjectWindow name json] |})
  end.
Proof.
  unfold_handler. simpl.
  by destruct (injectWindow env name json (world s)) as [[st|e] w1].
Qed.

Lemma get_run name json tsx s :
  pop_ui uploadsDir env name (Some Get) json tsx s =
  match readWindow env name (world s) with
  | (Returned st, w1) =>
      (Returned (answer name st),
       {| world := w1; calls := calls s ++ [EReadWindow name] |})
  | (Threw e, w1) =>
      (Threw e, {| world := w1; calls := calls s ++ [EReadWindow name] |})
  end.
Proof.
  unfold_handler. simpl.
  by destruct (readWindow env name (world s)) as [[st|e] w1].
Qed.

Lemma describe_run name json tsx s :
  pop_ui uploadsDir env name (Some Describe) json tsx s =
  match describeWindow env name (world s) with
  | (Returned st, w1) =>
      (Returned (answer name st),
       {| world := w1; calls := calls s ++ [EDescribeWindow name] |})
  | (Threw e, w1) =>
      (Threw e, {| world := w1; calls := calls s ++ [EDescribeWindow name] |})
  end.
Proof.
  unfold_handler. simpl.
  by destruct (describeWindow env name (world s)) as [[st|e] w1].
Qed.

(** The answers of the handler are told apart by their text and flag. *)
Lemma state_result_not_error st : state_result st ≠ tsx_required.
Proof. discriminate. Qed.

Lemma not_found_not_tsx_required name : not_found name ≠ tsx_required.
Proof. unfold not_found, not_found_text, tsx_required. discriminate. Qed.

Lemma answer_not_tsx_required name st : answer name st ≠ tsx_required.
Proof.
  destruct st; [apply state_result_not_error|apply not_found_not_tsx_required].
Qed.

(** When a show asks the store to inject: exactly when no content is
    supplied, a state is supplied, and the read of the live state gave one;
    the injection is then of that state, into the surface named.  The test
    of the state sits in the [else] of the test of the content, so the
    path without content applies a state and the path with content does
    not reach that call. *)
Theorem show_injects_iff name json tsx s :
  ∃ evs,
    calls (pop_ui uploadsDir env name (Some Show) json tsx s).2 =
      calls s ++ evs ∧
    ∀ n' j',
      EInjectWindow n' j' ∈ evs ↔
      n' = name ∧ j' = json ∧ tsx = None ∧ is_Some json ∧
      ∃ st, (readWindow env name (world s)).1 = Returned (Some st).
Proof.
  destruct tsx as [data|].
  - rewrite show_content_run.
    destruct (readWindow env name (world s)) as [[st|e] w1]; simpl;
      [destruct (writeFile env (filePath uploadsDir name) data w1)
         as [[[]|e] w2]; simpl|];
      (eexists; split; [done|]); intros n' j';
      (split; [log_cases|by intros (_ & _ & [=] & _)]).
  - rewrite show_bare_run.
    destruct (readWindow env name (world s)) as [[[st|]|e] w1]; simpl.
    + destruct json as [j|].
      * destruct (injectWindow env name (Some j) w1) as [[st'|e] w2]; simpl;
          (eexists; split; [done|]); intros n' j';
          (split; [log_cases; split_and!; eauto
                  |intros (-> & -> & _); apply elem_of_cons; right;
                   apply elem_of_cons; by left]).
      * eexists; split; [done|]. intros n' j'.
        split; [log_cases|by intros (_ & _ & _ & [? [=]] & _)].
    + eexists; split; [done|]. intros n' j'.
      split; [log_cases|by intros (_ & _ & _ & _ & ? & [=])].
    + eexists; split; [done|]. intros n' j'.
      split; [log_cases|by intros (_ & _ & _ & _ & ? & [=])].
Qed.

(** The calls of a show that carries content and completes, in their
    order: the read of the live state, the write of the content under the
    name, the list-changed notification, the open request.  The world it
    leaves is the one the write produced, with the open request applied. *)
Theorem show_content_order name json data s st w1 w2 :
  readWindow env name (world s) = (Returned st, w1) →
  writeFile env (filePath uploadsDir name) data w1 = (Returned tt, w2) →
  pop_ui uploadsDir env name (Some Show) json (Some data) s =
    (Returned (state_result st),
     {| world := openFile env (filePath uploadsDir name) w2;
        calls := calls s ++
          [EReadWindow name;
           EWriteFile (filePath uploadsDir name) data;
           ENotification list_changed;
           EOpenFile (filePath uploadsDir name)] |}).
Proof.
  intros Hread Hwrite. rewrite show_content_run, Hread, Hwrite. done.
Qed.

(** C4.  A show answers the "tsx is required" error exactly when no content
    is supplied and the surface is absent, which the handler reads off the
    store: its read of the name resolves to [null] ("window does not
    exist").  Then the read is the only call issued (nothing is written, no
    open request) and the world is as the read left it. *)
Theorem show_tsx_required_iff name json tsx s :
  ((pop_ui uploadsDir env name (Some Show) json tsx s).1 =
     Returned tsx_required ↔
   tsx = None ∧ (readWindow env name (world s)).1 = Returned None) ∧
  ((pop_ui uploadsDir env name (Some Show) json tsx s).1 =
     Returned tsx_required →
   (pop_ui uploadsDir env name (Some Show) json tsx s).2 =
     {| world := (readWindow env name (world s)).2;
        calls := calls s ++ [EReadWindow name] |}).
Proof.
  destruct tsx as [data|].
  - rewrite show_content_run.
    destruct (readWindow env name (world s)) as [[st|e] w1]; simpl.
    + destruct (writeFile env (filePath uploadsDir name) data w1)
        as [[[]|e] w2]; simpl.
      * split; [split|]; [|intros [? _]; done|]; intros [= Hr];
          by destruct (state_result_not_error st).
      * split; [split|]; [done|intros [? _]; done|done].
    + split; [split|]; [done|intros [? _]; done|done].
  - rewrite show_bare_run.
    destruct (readWindow env name (world s)) as [[[st|]|e] w1]; simpl.
    + destruct json as [j|].
      * destruct (injectWindow env name (Some j) w1) as [[st'|e] w2]; simpl.
        -- split; [split|]; [|intros [_ ?]; done|]; intros [= Hr];
             by destruct (state_result_not_error st').
        -- split; [split|]; [done|intros [_ ?]; done|done].
      * split; [split|]; [done|intros [_ ?]; done|done].
    + split; [split|]; done.
    + split; [split|]; [done|intros [_ ?]; done|done].
Qed.

(** C9 (amended).  A set whose state is omitted is not rejected by the
    handler: the absent value is handed to the store's inject as it is, and
    the answer follows from what the store resolves to ("not found" on
    [null], the state as text otherwise).  The "tsx is required" error, the
    one validation error of the handler, is never the answer of a set. *)
Theorem set_without_state_calls_inject name tsx s :
  pop_ui uploadsDir env name (Some Set_) None tsx s =
    match injectWindow env name None (world s) with
    | (Returned st, w1) =>
        (Returned (answer name st),
         {| world := w1; calls := calls s ++ [EInjectWindow name None] |})
    | (Threw e, w1) =>
        (Threw e,
         {| world := w1; calls := calls s ++ [EInjectWindow name None] |})
    end ∧
  (pop_ui uploadsDir env name (Some Set_) None tsx s).1 ≠
    Returned tsx_required.
Proof.
  rewrite set_run. split; [done|].
  destruct (injectWindow env name None (world s)) as [[st|e] w1]; simpl;
    [|done].
  intros [= Hr]. by destruct (answer_not_tsx_required name st).
Qed.

(** C10.  A show that carries content and completes answers, as text, the
    live state that the store's read gave on the world the invocation
    started in: before its own write and before its open request.  When
    that read gave [null], as for a name shown for the first time, the text
    is ["null"]. *)
Theorem show_content_answers_first_read name json data s st w1 w2 :
  readWindow env name (world s) = (Returned st, w1) →
  writeFile env (filePath uploadsDir name) data w1 = (Returned tt, w2) →
  ∃ r,
    (pop_ui uploadsDir env name (Some Show) json (Some data) s).1 =
      Returned r ∧
    isError r = false ∧
    text r = Js.template st ∧
    (st = None → text r = "null").
Proof.
  intros Hread Hwrite. rewrite show_content_run, Hread, Hwrite. simpl.
  exists (state_result st). split_and!; [done..|]. by intros ->.
Qed.

End DispatcherFacts.

(** ** Paths and file names *)

Section PathFacts.
Import Path.

Lemma append_cons a s t : String a s +:+ t = String a (s +:+ t).
Proof. reflexivity. Qed.

Lemma string_length_app s t :
  String.length (s +:+ t) = String.length s + String.length t.
Proof. induction s as [|a s IH]; [done|]. rewrite append_cons. simpl. lia. Qed.

Lemma append_cons_ne a s t : String a s +:+ t ≠ t.
Proof.
  intros H. apply (f_equal String.length) in H.
  rewrite string_length_app in H. simpl in H. lia.
Qed.

Lemma has_sep_app s t : has_sep (s +:+ t) = has_sep s || has_sep t.
Proof.
  induction s as [|a s IH]; [done|]. rewrite append_cons. simpl.
  by rewrite IH, orb_assoc.
Qed.

Lemma segments_no_sep s : has_sep s = false → segments s = [s].
Proof.
  induction s as [|a s IH]; [done|]. simpl.
  intros [Ha Hs]%orb_false_elim. apply bool_decide_eq_false in Ha.
  rewrite decide_False by done. by rewrite IH.
Qed.

Lemma normalize_snoc segs seg :
  seg ≠ "" → seg ≠ "." → seg ≠ ".." →
  normalize (segs ++ [seg]) = normalize segs ++ [seg].
Proof.
  intros H1 H2 H3. unfold normalize. rewrite fold_left_app. simpl.
  unfold path_step at 1.
  rewrite decide_False by (intros [?|?]; done).
  by rewrite decide_False.
Qed.

(** A file name [<name>.tsx] is an ordinary segment, whatever the name. *)
Lemma fileName_ordinary name :
  let f := Dispatcher.fileName name in f ≠ "" ∧ f ≠ "." ∧ f ≠ "..".
Proof.
  unfold Dispatcher.fileName. simpl.
  split_and!; intros H; apply (f_equal String.length) in H;
    rewrite string_length_app in H; simpl in H; lia.
Qed.

(** For a name without separator, the content file lies directly in the
    uploads directory, under [<name>.tsx]. *)
Lemma filePath_plain uploadsDir name :
  has_sep name = false →
  Dispatcher.filePath uploadsDir name =
    normalize uploadsDir ++ [Dispatcher.fileName name].
Proof.
  intros Hsep. unfold Dispatcher.filePath, path_join.
  rewrite segments_no_sep.
  - destruct (fileName_ordinary name) as (?&?&?). by apply normalize_snoc.
  - unfold Dispatcher.fileName. by rewrite has_sep_app, Hsep.
Qed.

Lemma last_dot_ext_Some s e :
  last_dot_ext s = Some e → ∃ pre, s = pre +:+ e.
Proof.
  revert e. induction s as [|a s IH]; intros e; simpl; [done|].
  destruct (last_dot_ext s) as [e'|].
  - intros [= <-]. destruct (IH e' eq_refl) as [pre ->].
    by exists (String a pre).
  - case_decide; [|done]. intros [= <-]. by exists "".
Qed.

Lemma last_dot_ext_tsx pre : last_dot_ext (pre +:+ ".tsx") = Some ".tsx".
Proof.
  induction pre as [|a pre IH]; [done|].
  rewrite append_cons. simpl. by rewrite IH.
Qed.

Lemma last_component_plain p : has_sep p = false → last_component p = p.
Proof.
  intros Hsep. unfold last_component. rewrite segments_no_sep by done.
  destruct p as [|a p]; [done|]. by rewrite filter_cons_True.
Qed.

(** On a name without separator, the extension is that of the name. *)
Lemma extname_plain f : has_sep f = false → extname f = ext_of f.
Proof. intros Hsep. unfold extname. by rewrite last_component_plain. Qed.

Lemma ext_of_tsx_iff f :
  ext_of f = ".tsx" ↔ ∃ stem, stem ≠ "" ∧ f = stem +:+ ".tsx".
Proof.
  unfold ext_of. split.
  - case_decide; [done|]. destruct f as [|a rest]; [done|].
    destruct (last_dot_ext rest) as [e|] eqn:He; simpl; [|done].
    intros ->. apply last_dot_ext_Some in He as [pre ->].
    by exists (String a pre).
  - intros ([|a pre] & Hne & ->); [done|].
    rewrite append_cons.
    rewrite decide_False.
    + by rewrite last_dot_ext_tsx.
    + intros H. apply (f_equal String.length) in H. simpl in H.
      rewrite string_length_app in H. simpl in H. lia.
Qed.

(** Among the entries of a directory, the lister keeps those named
    [<stem>.tsx] with a stem that is not empty. *)
Lemma extname_tsx_iff f :
  has_sep f = false →
  extname f = ".tsx" ↔ ∃ stem, stem ≠ "" ∧ f = stem +:+ ".tsx".
Proof. intros Hsep. rewrite extname_plain by done. apply ext_of_tsx_iff. Qed.

Lemma strip_suffix_unfold ext s :
  strip_suffix ext s =
    if decide (s = ext) then Some EmptyString
    else match s with
         | EmptyString => None
         | String a s' => String a <$> strip_suffix ext s'
         end.
Proof. by destruct s. Qed.

Lemma strip_suffix_app ext pre : strip_suffix ext (pre +:+ ext) = Some pre.
Proof.
  induction pre as [|a pre IH]; rewrite strip_suffix_unfold.
  - by rewrite decide_True.
  - rewrite decide_False by apply append_cons_ne.
    rewrite append_cons. by rewrite IH.
Qed.

Lemma basename_tsx stem :
  has_sep stem = false → basename (stem +:+ ".tsx") ".tsx" = stem.
Proof.
  intros Hsep. unfold basename.
  rewrite last_component_plain by (by rewrite has_sep_app, Hsep).
  rewrite decide_False.
  - destruct stem as [|a stem]; [done|].
    rewrite decide_False by apply append_cons_ne.
    by rewrite strip_suffix_app.
  - intros [?|Hlen]; [done|].
    rewrite string_length_app in Hlen. simpl in Hlen. lia.
Qed.

(** Among the entries of a directory, a listed name [name] comes from the
    entry [<name>.tsx], and from no other. *)
Lemma listed_name_iff f name :
  name ≠ "" →
  has_sep f = false →
  extname f = ".tsx" ∧ basename f ".tsx" = name ↔
  f = Dispatcher.fileName name.
Proof.
  intros Hne Hsep. unfold Dispatcher.fileName. split.
  - intros [(stem & Hstem & ->)%extname_tsx_iff Hb]; [|done].
    rewrite has_sep_app in Hsep. apply orb_false_elim in Hsep as [Hs _].
    rewrite basename_tsx in Hb by done. by subst.
  - intros ->.
    rewrite has_sep_app in Hsep. apply orb_false_elim in Hsep as [Hs _].
    split; [|by apply basename_tsx].
    apply extname_tsx_iff; [by rewrite has_sep_app, Hs|eauto].
Qed.

End PathFacts.

(** ** The dispatcher over the window store of the spec *)

Section StoreFacts.
Import Effects Dispatcher SpecStore.

Variable uploadsDir : list string.

Lemma openFile_files path w : files (openFile path w) = files w.
Proof.
  unfold openFile. destruct (files w !! path); [|done].
  by destruct (windows w !! _).
Qed.

Lemma openFile_dirs path w : dirs (openFile path w) = dirs w.
Proof.
  unfold openFile. destruct (files w !! path); [|done].
  by destruct (windows w !! _).
Qed.

Lemma answer_succeeds name st :
  succeeds (Returned (answer name st)) ↔ is_Some st.
Proof.
  unfold succeeds. destruct st as [v|]; simpl.
  - split; [eauto|]. intros _. by eexists.
  - split; [|by intros [? [=]]]. by intros (r & [= <-] & [=]).
Qed.

(** A get on this store changes nothing and answers from the live state. *)
Lemma store_get name json tsx s :
  pop_ui uploadsDir (env uploadsDir) name (Some Get) json tsx s =
    (Returned (answer name (live_of (world s) name)),
     {| world := world s; calls := calls s ++ [EReadWindow name] |}).
Proof. by rewrite get_run. Qed.





(** Windows come from open requests only. *)
Lemma openFile_windows path w n :
  is_Some (windows (openFile path w) !! n) →
  is_Some (windows w !! n) ∨
  n = Path.basename (default "" (last path)) ".tsx".
Proof.
  unfold openFile. destruct (files w !! path); [|by left].
  destruct (windows w !! Path.basename _ _) eqn:Hw; [by left|]. simpl.
  destruct (decide (n = Path.basename (default "" (last path)) ".tsx"))
    as [->|Hne]; [by right|].
  rewrite lookup_insert_ne by done. by left.
Qed.

Lemma injectWindow_windows name json w n :
  is_Some (windows (injectWindow name json w).2 !! n) →
  is_Some (windows w !! n).
Proof.
  unfold injectWindow. destruct (windows w !! name) as [sf|] eqn:Hw; [|done].
  destruct json as [v|]; [|done]. simpl.
  destruct (decide (n = name)) as [->|Hne]; [by rewrite Hw|].
  by rewrite lookup_insert_ne.
Qed.

(** A name gets a window only through a show, by its open request. *)
Lemma window_created_only_by_show name mode json tsx s n :
  windows (world s) !! n = None →
  is_Some (windows
             (world (pop_ui uploadsDir (env uploadsDir) name mode json tsx s).2)
             !! n) →
  mode = Some Show ∧
  n = Path.basename (default "" (last (filePath uploadsDir name))) ".tsx" ∧
  EOpenFile (filePath uploadsDir name) ∈
    calls (pop_ui uploadsDir (env uploadsDir) name mode json tsx s).2.
Proof.
  intros Hnone.
  assert (¬ is_Some (windows (world s) !! n)) as Hno
    by (rewrite Hnone; by intros [? [=]]).
  destruct mode as [[]|].
  - destruct tsx as [data|].
    + rewrite show_content_run. simpl. unfold writeFile.
      repeat case_decide; simpl; try done.
      intros [Hw| ->]%openFile_windows; [done|].
      split_and!; [done..|]. apply elem_of_app. right.
      do 3 (apply elem_of_cons; right). apply elem_of_cons. by left.
    + rewrite show_bare_run. simpl.
      destruct (live_of (world s) name) as [st|]; [|done].
      destruct json as [j|].
      * pose proof (injectWindow_windows name (Some j) (world s) n) as Hinj.
        destruct (injectWindow name (Some j) (world s)) as [[st'|e] w2];
          simpl in *; [|by intros Hw%Hinj].
        intros [Hw| ->]%openFile_windows; [by apply Hinj in Hw|].
        split_and!; [done..|]. apply elem_of_app. right.
        do 2 (apply elem_of_cons; right). apply elem_of_cons. by left.
      * simpl. intros [Hw| ->]%openFile_windows; [done|].
        split_and!; [done..|]. apply elem_of_app. right.
        apply elem_of_cons; right. apply elem_of_cons. by left.
  - rewrite store_get. done.
  - rewrite set_run.
    pose proof (injectWindow_windows name json (world s) n) as Hinj.
    simpl. destruct (injectWindow name json (world s)) as [[st'|e] w2];
      simpl in *; by intros Hw%Hinj.
  - rewrite describe_run. done.
  - done.
Qed.

(** C5.  For a name the store holds no window of (one that was never
    shown), set, get and describe each answer "not found", whatever the
    other arguments, and leave the world (disk and windows) as it was; a
    get that follows still answers "not found". *)
Theorem absent_name_not_found name json tsx s mode :
  windows (world s) !! name = None →
  mode ∈ [Set_; Get; Describe] →
  ∃ ev,
    pop_ui uploadsDir (env uploadsDir) name (Some mode) json tsx s =
      (Returned (not_found name),
       {| world := world s; calls := calls s ++ [ev] |}) ∧
    ev ∈ [EInjectWindow name json; EReadWindow name; EDescribeWindow name] ∧
    ∀ j t,
      (pop_ui uploadsDir (env uploadsDir) name (Some Get) j t
         {| world := world s; calls := calls s ++ [ev] |}).1 =
        Returned (not_found name).
Proof.
  intros Habs Hmode.
  assert (∀ ev j t,
    (pop_ui uploadsDir (env uploadsDir) name (Some Get) j t
       {| world := world s; calls := calls s ++ [ev] |}).1 =
      Returned (not_found name)) as Hget.
  { intros ev j t. rewrite store_get. simpl. unfold live_of.
    by rewrite Habs. }
  apply elem_of_cons in Hmode as [->|Hmode];
    [|apply elem_of_cons in Hmode as [->|Hmode];
      [|apply list_elem_of_singleton in Hmode as ->]].
  - exists (EInjectWindow name json). split_and!; [|by left|apply Hget].
    rewrite set_run. simpl. unfold injectWindow. by rewrite Habs.
  - exists (EReadWindow name). split_and!; [|by right; left|apply Hget].
    rewrite store_get. unfold live_of. by rewrite Habs.
  - exists (EDescribeWindow name).
    split_and!; [|by right; right; left|apply Hget].
    rewrite describe_run. simpl. unfold schema_of. by rewrite Habs.
Qed.

End StoreFacts.

(** ** Counting in the listing *)

Section CountFacts.

Context {A B : Type} `{EqDecision A} `{EqDecision B}.

Lemma length_filter_absent (x : A) (l : list A) :
  x ∉ l → length (filter (.= x) l) = 0.
Proof.
  induction l as [|a l IH]; [done|].
  intros [Hne Hnin]%not_elem_of_cons.
  rewrite filter_cons, decide_False by done. auto.
Qed.

Lemma length_filter_NoDup (x : A) (l : list A) :
  NoDup l → x ∈ l → length (filter (.= x) l) = 1.
Proof.
  induction 1 as [|a l Hnin Hnd IH]; [by intros ?%elem_of_nil|].
  rewrite filter_cons. intros [->|Hin]%elem_of_cons.
  - rewrite decide_True by done. cbn [length].
    by rewrite length_filter_absent.
  - rewrite decide_False by (intros ->; done). auto.
Qed.

Lemma length_filter_omap (h : A → option B) (y : B) (x : A) (l : list A) :
  (∀ a, h a = Some y ↔ a = x) →
  length (filter (.= y) (omap h l)) = length (filter (.= x) l).
Proof.
  intros Hh. induction l as [|a l IH]; [done|].
  change (omap h (a :: l))
    with (match h a with Some b => b :: omap h l | None => omap h l end).
  rewrite (filter_cons (.= x)).
  destruct (h a) as [b|] eqn:Ha.
  - rewrite filter_cons. destruct (decide (b = y)) as [->|Hne].
    + apply Hh in Ha as ->. rewrite decide_True by done.
      cbn [length]. by rewrite IH.
    + rewrite decide_False; [done|].
      intros ->. apply Hne. pose proof (proj2 (Hh x) eq_refl). congruence.
  - rewrite decide_False; [done|].
    intros ->. pose proof (proj2 (Hh x) eq_refl). congruence.
Qed.

Lemma length_filter_fmap_filter (P : A → Prop) `{∀ a, Decision (P a)}
    (g : A → B) (y : B) (x : A) (l : list A) :
  (∀ a, a ∈ l → P a ∧ g a = y ↔ a = x) →
  length (filter (.= y) (g <$> filter P l)) = length (filter (.= x) l).
Proof.
  induction l as [|a l IH]; intros Hg; [done|].
  assert (P a ∧ g a = y ↔ a = x) as Ha by (apply Hg; by left).
  assert (∀ b, b ∈ l → P b ∧ g b = y ↔ b = x) as Hl
    by (intros b Hb; apply Hg; by right).
  rewrite (filter_cons P), (filter_cons (.= x)).
  destruct (decide (P a)) as [HP|HP].
  - rewrite fmap_cons, filter_cons.
    destruct (decide (g a = y)) as [Hy|Hy].
    + rewrite decide_True by (by apply Ha). cbn [length]. by rewrite IH.
    + rewrite decide_False; [by apply IH|]. intros Hx. by apply Hy, Ha.
  - rewrite decide_False; [by apply IH|]. intros Hx. by apply HP, Ha.
Qed.

End CountFacts.

Lemma entry_in_Some dir path f :
  SpecStore.entry_in dir path = Some f ↔
  path = dir ++ [f] ∧ Path.has_sep f = false.
Proof.
  unfold SpecStore.entry_in. split.
  - case_decide as Hp; [|done]. destruct Hp as [_ <-].
    destruct (last path) as [f'|] eqn:Hlast; [|done].
    apply last_Some in Hlast as [l' ->].
    destruct (Path.has_sep f') eqn:Hsep; [done|]. intros [= <-].
    by rewrite removelast_last.
  - intros [-> Hsep]. rewrite decide_True.
    + by rewrite last_snoc, Hsep.
    + split; [by destruct dir|apply removelast_last].
Qed.

(** ** Writing twice under one name, and the listing *)

(** Open requests touch neither files nor directories. *)
Ltac store_simpl :=
  repeat (cbn [Effects.world SpecStore.dirs SpecStore.files
               SpecStore.with_files]
          || rewrite openFile_dirs || rewrite openFile_files).

Section ListingFacts.
Import Effects Dispatcher SpecStore.

Variable uploadsDir : list string.

(** In a world whose uploads directory exists, a stored file [<name>.tsx]
    that is no directory is listed once, as [name]. *)
Lemma listed_once name data s href :
  name ≠ "" →
  Path.has_sep name = false →
  Path.normalize uploadsDir ∈ dirs (world s) →
  Path.normalize uploadsDir ++ [fileName name] ∉ dirs (world s) →
  files (world s) !! (Path.normalize uploadsDir ++ [fileName name]) =
    Some data →
  ∃ res s',
    Lister.ui_list (env uploadsDir) href s = (Returned res, s') ∧
    length (filter (.= name) (Lister.listing res)) = 1.
Proof.
  intros Hne Hsep Hdir Hnodir Hfile.
  assert (Path.has_sep (fileName name) = false) as Hsepf
    by (unfold fileName; by rewrite has_sep_app, Hsep).
  unfold Lister.ui_list, bind, await, ret. simpl. unfold listFiles.
  rewrite decide_True by done. simpl. eexists _, _. split; [done|]. simpl.
  unfold Lister.windowNames.
  rewrite (length_filter_fmap_filter _ _ _ (fileName name)).
  2:{ intros f (p & _ & [_ Hf]%entry_in_Some)%list_elem_of_omap.
      by apply listed_name_iff. }
  rewrite (length_filter_omap _ _
             (Path.normalize uploadsDir ++ [fileName name])).
  2:{ intros p. rewrite entry_in_Some.
      split; [by intros [-> _]|by intros ->]. }
  rewrite filter_app, length_app.
  rewrite (length_filter_NoDup _ (_.*1)).
  - rewrite length_filter_absent; [done|]. by rewrite elem_of_elements.
  - apply NoDup_fst_map_to_list.
  - apply list_elem_of_fmap.
    exists (Path.normalize uploadsDir ++ [fileName name], data).
    split; [done|]. by apply elem_of_map_to_list.
Qed.

(** A show with content, when the uploads directory exists and the target
    is no directory: the write succeeds and the show completes. *)
Lemma store_show_content_completes name json data s :
  Path.has_sep name = false →
  Path.normalize uploadsDir ∈ dirs (world s) →
  filePath uploadsDir name ∉ dirs (world s) →
  pop_ui uploadsDir (env uploadsDir) name (Some Show) json (Some data) s =
    (Returned (state_result (live_of (world s) name)),
     {| world := openFile (filePath uploadsDir name)
                   (with_files (world s)
                      (<[filePath uploadsDir name := data]>
                         (files (world s))));
        calls := calls s ++ show_content_calls uploadsDir name data |}).
Proof.
  intros Hsep Hdir Hnodir. rewrite show_content_run. simpl. unfold writeFile.
  rewrite decide_False.
  - rewrite decide_True; [done|].
    rewrite filePath_plain by done. by rewrite removelast_last.
  - intros [Hnil|?]; [|done].
    rewrite filePath_plain in Hnil by done. by destruct (Path.normalize _).
Qed.

(** C6 (amended).  For a name that is not empty and holds no ["/"], in a
    world where the uploads directory exists and [<name>.tsx] is not a
    directory: two shows of the name, with contents [c1] then [c2], both
    complete; afterwards the content stored under the name is [c2], and the
    listing holds the name exactly once. *)
Theorem show_twice_last_write_wins name j1 j2 c1 c2 s href :
  name ≠ "" →
  Path.has_sep name = false →
  Path.normalize uploadsDir ∈ dirs (world s) →
  filePath uploadsDir name ∉ dirs (world s) →
  ∃ r1 s1 r2 s2 res s3,
    pop_ui uploadsDir (env uploadsDir) name (Some Show) j1 (Some c1) s =
      (Returned r1, s1) ∧
    pop_ui uploadsDir (env uploadsDir) name (Some Show) j2 (Some c2) s1 =
      (Returned r2, s2) ∧
    files (world s2) !! filePath uploadsDir name = Some c2 ∧
    Lister.ui_list (env uploadsDir) href s2 = (Returned res, s3) ∧
    length (filter (.= name) (Lister.listing res)) = 1.
Proof.
  intros Hne Hsep Hdir Hnodir.
  pose proof (store_show_content_completes name j1 c1 s Hsep Hdir Hnodir)
    as Hshow1.
  eexists _, _. eexists _, _.
  set (s1 := Build_Sys (openFile _ _) _) in Hshow1.
  assert (Path.normalize uploadsDir ∈ dirs (world s1)) as Hdir1
    by (subst s1; by store_simpl).
  assert (filePath uploadsDir name ∉ dirs (world s1)) as Hnodir1
    by (subst s1; by store_simpl).
  pose proof (store_show_content_completes name j2 c2 s1 Hsep Hdir1 Hnodir1)
    as Hshow2.
  set (s2 := Build_Sys (openFile _ _) _) in Hshow2.
  assert (files (world s2) !! filePath uploadsDir name = Some c2) as Hfile
    by (subst s2; store_simpl; apply lookup_insert_eq).
  destruct (listed_once name c2 s2 href) as (res & s3 & Hlist & Hcount).
  - done.
  - done.
  - subst s2. by store_simpl.
  - rewrite <- filePath_plain by done. subst s2. by store_simpl.
  - by rewrite <- filePath_plain.
  - exists res, s3. by split_and!.
Qed.

End ListingFacts.

(** ** Routing of posted messages *)

Section RegistryFacts.
Import Effects Registry.

Context {T : Type}.
Variable handlePostMessage : T → string → Outcome unit.


(** Only a truthy value is ever taken as the session id. *)
Lemma find_sessionId_truthy req c :
  find_sessionId req = Some c → is_truthy (Some c) = true.
Proof.
  unfold find_sessionId.
  destruct (is_truthy (body_sessionId req)) eqn:Hb; [by intros <-|].
  destruct (is_truthy (CStr <$> header_sessionId req)) eqn:Hh; [by intros <-|].
  destruct (is_truthy (query_sessionId req)) eqn:Hq; [by intros <-|done].
Qed.

(** The order of the three places: body, then header, then query. *)
Lemma find_sessionId_cases req b :
  find_sessionId req = Some (CStr b) ↔
  b ≠ "" ∧
  (body_sessionId req = Some (CStr b) ∨
   is_truthy (body_sessionId req) = false ∧
     (header_sessionId req = Some b ∨
      is_truthy (CStr <$> header_sessionId req) = false ∧
        query_sessionId req = Some (CStr b))).
Proof.
  unfold find_sessionId.
  destruct (body_sessionId req) as [[sb|[]]|],
    (header_sessionId req) as [sh|],
    (query_sessionId req) as [[sq|[]]|];
    simpl; repeat case_bool_decide; split;
    try (intros [= <-]); try (intros [? [[= <-]|[? [[= <-]|[? [= <-]]]]]]);
    try done; try (split; [done|]); eauto 6.
Qed.

Lemma hand_over_deliveries k t req h :
  ∃ resp,
    hand_over handlePostMessage k t req h =
      (resp, {| transports := transports h;
                deliveries := deliveries h ++ [(k, t, payload req)] |}) ∧
    (resp = ByTransport ∨ ∃ e, resp = Json 500 e).
Proof.
  unfold hand_over. destruct (handlePostMessage t (payload req)) as [[]|e].
  - eexists. split; [done|by left].
  - eexists. split; [done|right; by eexists].
Qed.

(** C7.  When the session id found in a request (body first, then header,
    then query) is the key [b] of an open transport, the message is handed
    to that transport, once, and to no other: the map of transports is
    unchanged and the one new delivery is to [b]. *)
Theorem explicit_session_is_served req h b tb :
  find_sessionId req = Some (CStr b) →
  map_get b (transports h) = Some tb →
  ∃ resp,
    post_messages handlePostMessage req h =
      (resp, {| transports := transports h;
                deliveries := deliveries h ++ [(b, tb, payload req)] |}) ∧
    (resp = ByTransport ∨ ∃ e, resp = Json 500 e) ∧
    ∀ a ta m, a ≠ b → (a, ta, m) ∉ [(b, tb, payload req)].
Proof.
  intros Hfind Hget. unfold post_messages.
  rewrite bool_decide_eq_false_2 by (by destruct (transports h)).
  rewrite Hfind, (find_sessionId_truthy _ _ Hfind). simpl.
  unfold map_has. rewrite Hget, bool_decide_eq_true_2 by done. simpl.
  destruct (hand_over_deliveries b tb req h) as (resp & -> & Hresp).
  exists resp. split_and!; [done..|].
  intros a ta m Hne [=]%list_elem_of_singleton. done.
Qed.

(** C8.  With no transport open, a posted message is answered with status
    503 and the error "No active SSE connections", nothing is handed to any
    transport and the hub is left as it was; and this answer is given in no
    other situation. *)
Theorem no_session_is_503 req h :
  (transports h = [] →
     post_messages handlePostMessage req h =
       (Json 503 "No active SSE connections", h)) ∧
  (∀ e h',
     post_messages handlePostMessage req h = (Json 503 e, h') →
     transports h = []).
Proof.
  unfold post_messages. split.
  - intros ->. done.
  - intros e h'. destruct (transports h) as [|[k t] m] eqn:Hm; [done|].
    rewrite bool_decide_eq_false_2 by done.
    destruct (is_truthy _ && has_sessionId T _ _).
    + destruct (get_sessionId T _ _) as [[k' t']|]; [|by intros [=]].
      destruct (hand_over_deliveries k' t' req h)
        as (resp & -> & [->|[? ->]]); by intros [=].
    + destruct (hand_over_deliveries k t req h)
        as (resp & -> & [->|[? ->]]); by intros [=].
Qed.

End RegistryFacts.

(** ** The properties at work on a concrete installation *)

Section Examples.
Import Effects Dispatcher.

(** The first show of ["panel"], with content and with a state: the
    window is opened and has reported nothing. *)
Example first_show_with_state :
  pop_ui Demo.uploads Demo.env "panel" (Some Show) (Some "{}") (Some "C1")
    Demo.start =
    (Returned {| text := "null"; isError := false |}, Demo.shown) ∧
  SpecStore.windows (world Demo.shown) !! "panel" =
    Some {| SpecStore.live := None; SpecStore.schema := None |}.
Proof. split; reflexivity. Qed.

(** C1.  The failing input: the show of ["panel"] with the content ["C1"]
    and the state ["{}"], on the server just started.  It completes, never
    asks the store to inject that state, and the surface does not hold it
    afterwards, whereas the schema gives the state as valid for a show and
    the path without content does inject it. *)
Lemma show_with_content_drops_state :
  ∃ r s1,
    pop_ui Demo.uploads Demo.env "panel" (Some Show) (Some "{}") (Some "C1")
      Demo.start = (Returned r, s1) ∧
    (EInjectWindow "panel" (Some "{}") ∉ calls s1) ∧
    (SpecStore.live_of (world s1) "panel" ≠ Some "{}").
Proof.
  exists (state_result None), Demo.shown.
  split_and!; [reflexivity|log_cases|discriminate].
Qed.

(** What a set does to the surface, once it has reported a state. *)
Example set_applies_state :
  let reported :=
    {| world := SpecStore.surface_reports "panel" "{}" None
                  (world Demo.shown);
       calls := [] |} in
  ∃ s1,
    pop_ui Demo.uploads Demo.env "panel" (Some Set_) (Some "[1]") None
      reported = (Returned {| text := "[1]"; isError := false |}, s1) ∧
    SpecStore.live_of (world s1) "panel" = Some "[1]".
Proof. eexists. split; reflexivity. Qed.

(** The order of calls, on the first show of ["panel"]. *)
Lemma show_content_order_witness :
  pop_ui Demo.uploads Demo.env "panel" (Some Show) (Some "{}") (Some "C1")
    Demo.start =
    (Returned (state_result None),
     {| world := SpecStore.openFile Demo.panel_path Demo.written;
        calls := [] ++
          [EReadWindow "panel";
           EWriteFile Demo.panel_path "C1";
           ENotification list_changed;
           EOpenFile Demo.panel_path] |}).
Proof.
  apply (show_content_order Demo.uploads Demo.env "panel" (Some "{}") "C1"
           Demo.start None (SpecStore.boot Demo.uploads) Demo.written);
    reflexivity.
Defined.

(** C2.  The failing input: the show of ["panel"] with the content ["C1"]
    and the state ["{}"], on the server just started.  It completes, with
    the write and the notification before the open request, and no
    injection of that state is issued after the open request. *)
Lemma show_state_not_injected_after_open :
  ∃ r s1,
    pop_ui Demo.uploads Demo.env "panel" (Some Show) (Some "{}") (Some "C1")
      Demo.start = (Returned r, s1) ∧
    calls s1 =
      [EReadWindow "panel"; EWriteFile Demo.panel_path "C1";
       ENotification list_changed; EOpenFile Demo.panel_path] ∧
    ¬ issued_after (EOpenFile Demo.panel_path)
        (EInjectWindow "panel" (Some "{}")) (calls s1).
Proof.
  exists (state_result None), Demo.shown. split_and!; [reflexivity..|].
  intros (pre & post & Hlog & Hin).
  unfold Demo.shown in Hlog. cbn [calls] in Hlog.
  do 4 (destruct pre as [|? pre]; simplify_eq/=;
        try by apply elem_of_nil in Hin).
  by destruct pre.
Qed.


Example get_before_report_answers_null :
  SpecStore.windows (world Demo.shown) !! "panel" =
    Some {| SpecStore.live := None; SpecStore.schema := None |} ∧
  (pop_ui Demo.uploads Demo.env "panel" (Some Get) None None Demo.shown).1 =
    Returned {| text := "null"; isError := false |}.
Proof. split; reflexivity. Qed.

(** Once the surface has reported a state, the get succeeds. *)
Example get_after_report_succeeds :
  (pop_ui Demo.uploads Demo.env "panel" (Some Get) None None
     {| world := SpecStore.surface_reports "panel" "{}" None
                   (world Demo.shown);
        calls := calls Demo.shown |}).1 =
    Returned {| text := "{}"; isError := false |}.
Proof. reflexivity. Qed.

(** A show of ["panel"] without content: refused on the server just
    started, where the store holds no such surface, and answered once the
    surface has been shown. *)
Example show_without_content :
  (pop_ui Demo.uploads Demo.env "panel" (Some Show) None None
     Demo.start).1 = Returned tsx_required ∧
  (pop_ui Demo.uploads Demo.env "panel" (Some Show) None None
     Demo.shown).1 = Returned {| text := "null"; isError := false |}.
Proof. split; reflexivity. Qed.

(** A set of a name that was never shown, on the server just started. *)
Lemma absent_name_not_found_witness :
  ∃ ev,
    pop_ui Demo.uploads Demo.env "ghost" (Some Set_) (Some "{}") None
      Demo.start =
      (Returned (not_found "ghost"),
       {| world := world Demo.start; calls := calls Demo.start ++ [ev] |}) ∧
    ev ∈ [EInjectWindow "ghost" (Some "{}"); EReadWindow "ghost";
          EDescribeWindow "ghost"] ∧
    ∀ j t,
      (pop_ui Demo.uploads Demo.env "ghost" (Some Get) j t
         {| world := world Demo.start;
            calls := calls Demo.start ++ [ev] |}).1 =
        Returned (not_found "ghost").
Proof.
  apply (absent_name_not_found Demo.uploads "ghost" (Some "{}") None
           Demo.start Set_).
  - reflexivity.
  - constructor.
Defined.

(** Two shows of ["panel"], then the listing. *)
Lemma show_twice_last_write_wins_witness :
  ∃ r1 s1 r2 s2 res s3,
    pop_ui Demo.uploads Demo.env "panel" (Some Show) None (Some "C1")
      Demo.start = (Returned r1, s1) ∧
    pop_ui Demo.uploads Demo.env "panel" (Some Show) None (Some "C2") s1 =
      (Returned r2, s2) ∧
    SpecStore.files (world s2) !! filePath Demo.uploads "panel" = Some "C2" ∧
    Lister.ui_list Demo.env "ui://list" s2 = (Returned res, s3) ∧
    length (filter (.= "panel") (Lister.listing res)) = 1.
Proof.
  apply (show_twice_last_write_wins Demo.uploads "panel" None None "C1" "C2"
           Demo.start "ui://list").
  - discriminate.
  - reflexivity.
  - refine (bool_decide_unpack _ _). vm_compute. exact I.
  - refine (bool_decide_unpack _ _). vm_compute. exact I.
Defined.

(** C6, as claimed, fails for the empty name: two shows of [""] complete,
    the content stored under it is the second one, and the listing does not
    hold the name (the file [.tsx] has no extension for [path.extname]). *)
Lemma empty_name_not_listed :
  let show1 :=
    pop_ui Demo.uploads Demo.env "" (Some Show) None (Some "C1") Demo.start in
  let show2 :=
    pop_ui Demo.uploads Demo.env "" (Some Show) None (Some "C2") show1.2 in
  let list := Lister.ui_list Demo.env "ui://list" show2.2 in
  show1.1 = Returned (state_result None) ∧
  show2.1 = Returned (state_result None) ∧
  SpecStore.files (world show2.2) !! filePath Demo.uploads "" = Some "C2" ∧
  ∃ res,
    list.1 = Returned res ∧
    Lister.listing res = [] ∧
    length (filter (.= "") (Lister.listing res)) ≠ 1.
Proof.
  split_and!; [reflexivity..|].
  exists {| Lister.uri := "ui://list"; Lister.listing := [] |}.
  split_and!; [reflexivity..|discriminate].
Qed.

(** [path.extname] and [path.basename] look at the last component of a
    path, whatever stands before it; an entry named [.tsx] has no
    extension. *)
Example last_component_only :
  Path.extname "sub/a.tsx" = ".tsx" ∧
  Path.basename "sub/a.tsx" ".tsx" = "a" ∧
  Path.extname "d/.tsx" = "" ∧
  Path.basename "d/.tsx" ".tsx" = ".tsx" ∧
  Path.basename ".tsx" ".tsx" = "" ∧
  Path.extname "a.tsx/" = ".tsx" ∧
  Lister.windowNames ["sub/a.tsx"; "a.tsx"; ".tsx"; "b.txt"] = ["a"; "a"].
Proof. split_and!; reflexivity. Qed.

(** A write below a regular file, and one below nothing. *)
Example write_below_a_file :
  (SpecStore.writeFile (Demo.panel_path ++ ["x"]) "C" (world Demo.shown)).1 =
    Threw "ENOTDIR" ∧
  (SpecStore.writeFile (Demo.uploads ++ ["a"; "x"]) "C"
     (world Demo.shown)).1 = Threw "ENOENT".
Proof. split; reflexivity. Qed.

(** A name with a separator: the write fails (no such directory) and the
    show rejects before any notification or open request. *)
Example show_in_missing_directory :
  ∃ s1,
    pop_ui Demo.uploads Demo.env "a/b" (Some Show) None (Some "C1")
      Demo.start = (Threw "ENOENT", s1) ∧
    calls s1 =
      [EReadWindow "a/b";
       EWriteFile ["home"; "user"; "uploads"; "a"; "b.tsx"] "C1"].
Proof. eexists. split; reflexivity. Qed.

(** C9, as claimed, fails: a set of ["ghost"] whose state is omitted is not
    answered with a validation error; the store's inject is called with the
    absent value, and the answer is the "not found" of the store's
    [null]. *)
Lemma set_without_state_reaches_store :
  pop_ui Demo.uploads Demo.env "ghost" (Some Set_) None None Demo.start =
    (Returned (not_found "ghost"),
     {| world := world Demo.start;
        calls := [EInjectWindow "ghost" None] |}) ∧
  not_found "ghost" ≠ tsx_required.
Proof. split; [reflexivity|discriminate]. Qed.

(** The first show of ["panel"] answers the text ["null"]. *)
Lemma show_content_answers_first_read_witness :
  ∃ r,
    (pop_ui Demo.uploads Demo.env "panel" (Some Show) None (Some "C1")
       Demo.start).1 = Returned r ∧
    isError r = false ∧
    text r = Js.template None ∧
    ((None : option string) = None → text r = "null").
Proof.
  apply (show_content_answers_first_read Demo.uploads Demo.env "panel" None
           "C1" Demo.start None (SpecStore.boot Demo.uploads) Demo.written);
    reflexivity.
Defined.

(** With A and B open, a message that names B in its header goes to B. *)
Lemma explicit_session_is_served_witness :
  ∃ resp,
    Registry.post_messages Demo.accept Demo.for_B Demo.hub_AB =
      (resp,
       {| Registry.transports := Registry.transports Demo.hub_AB;
          Registry.deliveries :=
            Registry.deliveries Demo.hub_AB ++
              [("B", "transport of B", Registry.payload Demo.for_B)] |}) ∧
    (resp = Registry.ByTransport ∨ ∃ e, resp = Registry.Json 500 e) ∧
    ∀ a ta m, a ≠ "B" →
      (a, ta, m) ∉ [("B", "transport of B", Registry.payload Demo.for_B)].
Proof.
  apply (explicit_session_is_served Demo.accept Demo.for_B Demo.hub_AB "B"
           "transport of B"); reflexivity.
Defined.

(** A message that names no session, and one that names a session that is
    not open, go to the session opened first. *)
Example unnamed_message_goes_to_first :
  Registry.post_messages Demo.accept
    {| Registry.body_sessionId := None; Registry.header_sessionId := None;
       Registry.query_sessionId := None; Registry.payload := "ping" |}
    Demo.hub_AB =
    (Registry.ByTransport,
     {| Registry.transports := Registry.transports Demo.hub_AB;
        Registry.deliveries := [("A", "transport of A", "ping")] |}) ∧
  Registry.post_messages Demo.accept
    {| Registry.body_sessionId := Some (Registry.CStr "C");
       Registry.header_sessionId := Some "B";
       Registry.query_sessionId := None; Registry.payload := "ping" |}
    Demo.hub_AB =
    (Registry.ByTransport,
     {| Registry.transports := Registry.transports Demo.hub_AB;
        Registry.deliveries := [("A", "transport of A", "ping")] |}).
Proof. split; reflexivity. Qed.

End Examples.

(** * More of the server *)

(** ** The dispatcher: what an invocation may call, and what it answers *)

(** Membership in a log that is written out, whatever the kind of entry. *)
Ltac log_inv Hin :=
  repeat (apply elem_of_cons in Hin as [Hin|Hin]; [simplify_eq|]);
  try (by apply elem_of_nil in Hin).

Section DispatcherMore.
Import Effects Dispatcher.

Context {W : Type}.
Variable uploadsDir : list string.
Variable env : Env W.

(** The calls of any invocation, by cases on the mode. *)
Lemma calls_of_invocation name mode json tsx s :
  ∃ evs,
    calls (pop_ui uploadsDir env name mode json tsx s).2 = calls s ++ evs ∧
    match mode with
    | Some Show =>
        match tsx with
        | Some data =>
            evs `prefix_of` show_content_calls uploadsDir name data
        | None =>
            evs `prefix_of`
              [EReadWindow name; EInjectWindow name json;
               EOpenFile (filePath uploadsDir name)] ∨
            evs = [EReadWindow name; EOpenFile (filePath uploadsDir name)]
        end
    | Some Get => evs = [EReadWindow name]
    | Some Set_ => evs = [EInjectWindow name json]
    | Some Describe => evs = [EDescribeWindow name]
    | None => evs = []
    end.
Proof.
  destruct mode as [[]|].
  - destruct tsx as [data|].
    + rewrite show_content_run.
      destruct (readWindow env name (world s)) as [[st|e] w1]; simpl;
        [destruct (writeFile env (filePath uploadsDir name) data w1)
           as [[[]|e] w2]; simpl|];
        (eexists; split; [done|]).
      * done.
      * by exists [ENotification list_changed;
                   EOpenFile (filePath uploadsDir name)].
      * by eexists.
    + rewrite show_bare_run.
      destruct (readWindow env name (world s)) as [[[st|]|e] w1]; simpl.
      * destruct json as [j|].
        -- destruct (injectWindow env name (Some j) w1) as [[st'|e] w2];
             simpl; (eexists; split; [done|]); left; [done|].
           by exists [EOpenFile (filePath uploadsDir name)].
        -- eexists; split; [done|]. by right.
      * eexists; split; [done|]. left. by eexists.
      * eexists; split; [done|]. left. by eexists.
  - rewrite get_run.
    destruct (readWindow env name (world s)) as [[st|e] w1]; by eexists.
  - rewrite set_run.
    destruct (injectWindow env name json (world s)) as [[st|e] w1];
      by eexists.
  - rewrite describe_run.
    destruct (describeWindow env name (world s)) as [[st|e] w1]; by eexists.
  - exists []. split; [|done]. simpl. by rewrite app_nil_r.
Qed.

Lemma elem_of_prefix (ev : Event) evs log :
  evs `prefix_of` log → ev ∈ evs → ev ∈ log.
Proof. intros [k ->] Hin. apply elem_of_app. by left. Qed.

(** X1.  Whatever the mode and the arguments, an invocation only touches
    the surface it names: it writes no file but [<name>.tsx] with the
    content supplied, opens no file but that one, notifies nothing but the
    change of the list, and only a show does any of these; the only window
    read, injected or described is the one named; the directory is never
    listed. *)
Theorem effects_confined_to_name name mode json tsx s :
  ∃ evs,
    calls (pop_ui uploadsDir env name mode json tsx s).2 = calls s ++ evs ∧
    (∀ p d, EWriteFile p d ∈ evs →
       mode = Some Show ∧ p = filePath uploadsDir name ∧ tsx = Some d) ∧
    (∀ m, ENotification m ∈ evs →
       mode = Some Show ∧ m = list_changed ∧ is_Some tsx) ∧
    (∀ p, EOpenFile p ∈ evs → mode = Some Show ∧ p = filePath uploadsDir name) ∧
    (∀ n, EReadWindow n ∈ evs → n = name) ∧
    (∀ n j, EInjectWindow n j ∈ evs → n = name ∧ j = json) ∧
    (∀ n, EDescribeWindow n ∈ evs → n = name ∧ mode = Some Describe) ∧
    EListFiles ∉ evs.
Proof.
  destruct (calls_of_invocation name mode json tsx s) as (evs & Hcalls & Hevs).
  exists evs. split; [done|].
  destruct mode as [[]|].
  - destruct tsx as [data|].
    + unfold show_content_calls in Hevs.
      split_and!; [intros p d Hin|intros m Hin|intros p Hin|intros n Hin
                  |intros n j Hin|intros n Hin|intros Hin];
        apply (elem_of_prefix _ _ _ Hevs) in Hin; log_inv Hin; eauto.
    + assert (∀ ev, ev ∈ evs →
        ev ∈ [EReadWindow name; EInjectWindow name json;
              EOpenFile (filePath uploadsDir name)]) as Hsub.
      { intros ev Hin. destruct Hevs as [Hp| ->].
        - by apply (elem_of_prefix _ _ _ Hp).
        - log_inv Hin; [by left|]. right; right; by left. }
      split_and!; [intros p d Hin|intros m Hin|intros p Hin|intros n Hin
                  |intros n j Hin|intros n Hin|intros Hin];
        apply Hsub in Hin; log_inv Hin; eauto.
  - subst evs.
    split_and!; [intros p d Hin|intros m Hin|intros p Hin|intros n Hin
                |intros n j Hin|intros n Hin|intros Hin];
      log_inv Hin; eauto.
  - subst evs.
    split_and!; [intros p d Hin|intros m Hin|intros p Hin|intros n Hin
                |intros n j Hin|intros n Hin|intros Hin];
      log_inv Hin; eauto.
  - subst evs.
    split_and!; [intros p d Hin|intros m Hin|intros p Hin|intros n Hin
                |intros n j Hin|intros n Hin|intros Hin];
      log_inv Hin; eauto.
  - subst evs.
    split_and!; [intros p d Hin|intros m Hin|intros p Hin|intros n Hin
                |intros n j Hin|intros n Hin|intros Hin];
      log_inv Hin; eauto.
Qed.

(** X2.  When the write of the content rejects, the show rejects with the
    same error, and nothing follows the write: no notification is sent and
    no open request is issued. *)
Theorem show_write_failure_stops name json data s st w1 e w2 :
  readWindow env name (world s) = (Returned st, w1) →
  writeFile env (filePath uploadsDir name) data w1 = (Threw e, w2) →
  pop_ui uploadsDir env name (Some Show) json (Some data) s =
    (Threw e,
     {| world := w2;
        calls := calls s ++
          [EReadWindow name;
           EWriteFile (filePath uploadsDir name) data] |}).
Proof.
  intros Hread Hwrite. by rewrite show_content_run, Hread, Hwrite.
Qed.

(** X3.  A show without content that carries a state, on a surface whose
    live state is there: the state is injected before the open request,
    and the answer is what the injection resolved to, never flagged as an
    error, even when the injection resolved to [null] (the text is then
    ["null"]). *)
Theorem show_state_only_answers_injection name j s st w1 st' w2 :
  readWindow env name (world s) = (Returned (Some st), w1) →
  injectWindow env name (Some j) w1 = (Returned st', w2) →
  pop_ui uploadsDir env name (Some Show) (Some j) None s =
    (Returned {| text := Js.template st'; isError := false |},
     {| world := openFile env (filePath uploadsDir name) w2;
        calls := calls s ++
          [EReadWindow name; EInjectWindow name (Some j);
           EOpenFile (filePath uploadsDir name)] |}) ∧
  (st' = None → Js.template st' = "null").
Proof.
  intros Hread Hinject. rewrite show_bare_run, Hread, Hinject.
  split; [done|]. by intros ->.
Qed.

(** X4.  The answers of the handler, by mode: a show answers "tsx is
    required" or a state; set, get and describe answer "not found" or a
    state; a missing mode answers "invalid mode".  An answer is flagged as
    an error exactly when it is one of these three messages. *)
Theorem answers_by_mode name mode json tsx s r :
  (pop_ui uploadsDir env name mode json tsx s).1 = Returned r →
  match mode with
  | Some Show => r = tsx_required ∨ ∃ st, r = state_result st
  | Some _ => r = not_found name ∨ ∃ v, r = state_result (Some v)
  | None => r = invalid_mode "undefined"
  end ∧
  (isError r = true ↔
     r = tsx_required ∨ r = not_found name ∨ r = invalid_mode "undefined").
Proof.
  assert (∀ st, isError (answer name st) = true ↔
            answer name st = tsx_required ∨ answer name st = not_found name ∨
            answer name st = invalid_mode "undefined") as Hanswer.
  { intros [v|]; simpl; split; try done; [|eauto].
    intros [[=]|[[=]|[=]]]. }
  assert (∀ st, isError (state_result st) = true ↔
            state_result st = tsx_required ∨
            state_result st = not_found name ∨
            state_result st = invalid_mode "undefined") as Hstate.
  { intros st. split; [done|]. intros [[=]|[[=]|[=]]]. }
  assert (∀ st, answer name st = not_found name ∨
                ∃ v, answer name st = state_result (Some v)) as Hcases.
  { intros [v|]; [right; by exists v|by left]. }
  destruct mode as [[]|].
  - destruct tsx as [data|].
    + rewrite show_content_run.
      destruct (readWindow env name (world s)) as [[st|e] w1]; simpl;
        [|done].
      destruct (writeFile env (filePath uploadsDir name) data w1)
        as [[[]|e] w2]; simpl; [|done].
      intros [= <-]. split; [right; by eexists|apply Hstate].
    + rewrite show_bare_run.
      destruct (readWindow env name (world s)) as [[[st|]|e] w1]; simpl;
        [| |done].
      * destruct json as [j|].
        -- destruct (injectWindow env name (Some j) w1) as [[st'|e] w2];
             simpl; [|done].
           intros [= <-]. split; [right; by eexists|apply Hstate].
        -- intros [= <-]. split; [right; by eexists|apply Hstate].
      * intros [= <-]. split; [by left|]. split; [by left|done].
  - rewrite get_run.
    destruct (readWindow env name (world s)) as [[st|e] w1]; simpl; [|done].
    intros [= <-]. split; [apply Hcases|apply Hanswer].
  - rewrite set_run.
    destruct (injectWindow env name json (world s)) as [[st|e] w1]; simpl;
      [|done].
    intros [= <-]. split; [apply Hcases|apply Hanswer].
  - rewrite describe_run.
    destruct (describeWindow env name (world s)) as [[st|e] w1]; simpl;
      [|done].
    intros [= <-]. split; [apply Hcases|apply Hanswer].
  - simpl. intros [= <-]. split; [done|]. split; [by right; right|done].
Qed.

(** X5.  The handler has no error of its own to throw: get, set and
    describe reject exactly when their one call of the store rejects, with
    the same error, and a missing mode never rejects. *)
Theorem single_call_modes_reject_iff name json tsx s e :
  ((pop_ui uploadsDir env name (Some Get) json tsx s).1 = Threw e ↔
     (readWindow env name (world s)).1 = Threw e) ∧
  ((pop_ui uploadsDir env name (Some Set_) json tsx s).1 = Threw e ↔
     (injectWindow env name json (world s)).1 = Threw e) ∧
  ((pop_ui uploadsDir env name (Some Describe) json tsx s).1 = Threw e ↔
     (describeWindow env name (world s)).1 = Threw e) ∧
  (pop_ui uploadsDir env name None json tsx s).1 ≠ Threw e.
Proof.
  rewrite get_run, set_run, describe_run.
  destruct (readWindow env name (world s)) as [[?|?] ?],
    (injectWindow env name json (world s)) as [[?|?] ?],
    (describeWindow env name (world s)) as [[?|?] ?]; simpl;
    split_and!; try done; try (by split); split; by intros [= ->].
Qed.

End DispatcherMore.

(** ** The listing: which names it holds *)

Section ListerMore.
Import Effects Dispatcher.

(** A stem of an entry name holds no separator either. *)
Lemma has_sep_stem stem ext :
  Path.has_sep (stem +:+ ext) = false → Path.has_sep stem = false.
Proof. rewrite has_sep_app. by intros [? _]%orb_false_elim. Qed.

(** X6.  Over the entries of a directory (names, which hold no separator),
    a name is in the listing exactly when it is not empty and the directory
    holds the entry [<name>.tsx]: entries with another extension, and the
    entry [.tsx] itself, are left out. *)
Theorem windowNames_elem (name : string) (files : list string) :
  Forall (fun f => Path.has_sep f = false) files →
  name ∈ Lister.windowNames files ↔ name ≠ "" ∧ fileName name ∈ files.
Proof.
  rewrite Forall_forall. intros Hsep.
  unfold Lister.windowNames, fileName. rewrite list_elem_of_fmap. split.
  - intros (f & -> & [Hext Hin]%list_elem_of_filter).
    pose proof (Hsep f Hin) as Hf.
    apply extname_tsx_iff in Hext as (stem & Hne & ->); [|done].
    by rewrite basename_tsx by (by eapply has_sep_stem).
  - intros [Hne Hin]. pose proof (Hsep _ Hin) as Hf.
    exists (name +:+ ".tsx").
    split; [by rewrite basename_tsx by (by eapply has_sep_stem)|].
    apply list_elem_of_filter. split; [|done].
    apply extname_tsx_iff; eauto.
Qed.

(** X7.  Over the entries of a directory (names, which hold no separator),
    the listing repeats no name when the directory repeats no entry; and
    the listing is never longer than the list it is made from. *)
Theorem windowNames_NoDup (files : list string) :
  Forall (fun f => Path.has_sep f = false) files →
  NoDup files →
  NoDup (Lister.windowNames files) ∧
  length (Lister.windowNames files) ≤ length files.
Proof.
  rewrite Forall_forall. intros Hsep Hnd. unfold Lister.windowNames. split.
  - apply NoDup_fmap_2_strong; [|by apply NoDup_filter].
    intros f1 f2 [Hext1 Hin1]%list_elem_of_filter
      [Hext2 Hin2]%list_elem_of_filter.
    pose proof (Hsep _ Hin1) as Hf1. pose proof (Hsep _ Hin2) as Hf2.
    apply extname_tsx_iff in Hext1 as (stem1 & Hne1 & ->); [|done].
    apply extname_tsx_iff in Hext2 as (stem2 & Hne2 & ->); [|done].
    rewrite !basename_tsx by (by eapply has_sep_stem). by intros ->.
  - rewrite length_fmap. apply length_filter.
Qed.

Lemma fileName_inj n1 n2 : fileName n1 = fileName n2 → n1 = n2.
Proof.
  unfold fileName. intros Heq.
  pose proof (strip_suffix_app ".tsx" n1) as H1.
  rewrite Heq, strip_suffix_app in H1. congruence.
Qed.

(** X8.  Two names without separator share their content file only when
    they are the same name. *)
Theorem filePath_inj uploadsDir n1 n2 :
  Path.has_sep n1 = false →
  Path.has_sep n2 = false →
  filePath uploadsDir n1 = filePath uploadsDir n2 →
  n1 = n2.
Proof.
  intros H1 H2. rewrite !filePath_plain by done.
  intros [= Heq]%app_inv_head. by apply fileName_inj.
Qed.

End ListerMore.

(** ** The content of other names *)

Section FrameFacts.
Import Effects Dispatcher SpecStore.

Variable uploadsDir : list string.

Lemma injectWindow_files name json w :
  files (injectWindow name json w).2 = files w.
Proof.
  unfold injectWindow. destruct (windows w !! name); [|done].
  by destruct json.
Qed.

(** X9.  On the disk of the model, an invocation on one name, whatever its
    mode and arguments and whether it completes or not, leaves the content
    stored for any other name as it was (names without separator). *)
Theorem other_names_content_kept n1 n2 mode json tsx s :
  Path.has_sep n1 = false →
  Path.has_sep n2 = false →
  n1 ≠ n2 →
  files (world (pop_ui uploadsDir (env uploadsDir) n2 mode json tsx s).2)
    !! filePath uploadsDir n1 =
  files (world s) !! filePath uploadsDir n1.
Proof.
  intros H1 H2 Hne.
  assert (filePath uploadsDir n2 ≠ filePath uploadsDir n1) as Hpath.
  { rewrite !filePath_plain by done.
    intros [= Heq]%app_inv_head. by apply Hne, fileName_inj. }
  destruct mode as [[]|].
  - destruct tsx as [data|].
    + rewrite show_content_run. simpl. unfold writeFile.
      repeat case_decide; simpl; try done.
      rewrite openFile_files. simpl. by rewrite lookup_insert_ne.
    + rewrite show_bare_run. simpl.
      destruct (live_of (world s) n2) as [st|]; [|done].
      destruct json as [j|]; simpl; [|by rewrite openFile_files].
      pose proof (injectWindow_files n2 (Some j) (world s)) as Hinj.
      destruct (injectWindow n2 (Some j) (world s)) as [[st'|e] w2];
        simpl in *; rewrite ?openFile_files; by rewrite Hinj.
  - by rewrite store_get.
  - rewrite set_run. simpl.
    pose proof (injectWindow_files n2 json (world s)) as Hinj.
    destruct (injectWindow n2 json (world s)) as [[st'|e] w2];
      simpl in *; by rewrite Hinj.
  - by rewrite describe_run.
  - done.
Qed.

End FrameFacts.

(** ** The map of transports under connect, close and post *)

Section RegistryMore.
Import Effects Registry.

Context {T : Type}.
Variable handlePostMessage : T → string → Outcome unit.

Lemma map_get_cons k k' (v : T) m :
  map_get k ((k', v) :: m) = if decide (k = k') then Some v else map_get k m.
Proof. done. Qed.

Lemma map_set_cons k k' (v v' : T) m :
  map_set k v ((k', v') :: m) =
    if decide (k = k') then (k, v) :: m else (k', v') :: map_set k v m.
Proof. done. Qed.

Lemma map_get_set_eq k (v : T) m : map_get k (map_set k v m) = Some v.
Proof.
  induction m as [|[k' v'] m IH].
  - change (map_set k v []) with [(k, v)].
    by rewrite map_get_cons, decide_True.
  - rewrite map_set_cons. destruct (decide (k = k')) as [->|Hne].
    + by rewrite map_get_cons, decide_True.
    + by rewrite map_get_cons, decide_False.
Qed.

Lemma map_get_set_ne k k' (v : T) m :
  k ≠ k' → map_get k' (map_set k v m) = map_get k' m.
Proof.
  intros Hne. induction m as [|[k2 v2] m IH].
  - change (map_set k v []) with [(k, v)].
    by rewrite map_get_cons, decide_False.
  - rewrite map_set_cons. destruct (decide (k = k2)) as [->|Hne2].
    + by rewrite !map_get_cons, !decide_False.
    + by rewrite !map_get_cons, IH.
Qed.

Lemma map_get_delete_eq k (m : list (string * T)) :
  map_get k (map_delete k m) = None.
Proof.
  unfold map_delete. induction m as [|[k' v'] m IH]; [done|].
  rewrite filter_cons. cbn [fst]. destruct (decide (k' ≠ k)) as [Hne|Heq].
  - by rewrite map_get_cons, decide_False.
  - done.
Qed.

Lemma map_get_delete_ne k k' (m : list (string * T)) :
  k ≠ k' → map_get k' (map_delete k m) = map_get k' m.
Proof.
  intros Hne. unfold map_delete. induction m as [|[k2 v2] m IH]; [done|].
  rewrite filter_cons. cbn [fst]. destruct (decide (k2 ≠ k)) as [Hne2|Heq].
  - by rewrite !map_get_cons, IH.
  - apply dec_stable in Heq as ->. by rewrite map_get_cons, decide_False.
Qed.

Lemma map_get_None k (m : list (string * T)) :
  map_get k m = None ↔ k ∉ m.*1.
Proof.
  induction m as [|[k' v'] m IH].
  - split; [intros _; apply not_elem_of_nil|done].
  - rewrite map_get_cons, fmap_cons, not_elem_of_cons. cbn [fst].
    destruct (decide (k = k')) as [->|Hne].
    + split; [done|]. by intros [? _].
    + rewrite IH. split; [done|]. by intros [_ ?].
Qed.

Lemma map_set_keys k (v : T) m :
  (map_set k v m).*1 = if decide (k ∈ m.*1) then m.*1 else m.*1 ++ [k].
Proof.
  induction m as [|[k' v'] m IH].
  - rewrite decide_False; [done|]. apply not_elem_of_nil.
  - rewrite map_set_cons. destruct (decide (k = k')) as [->|Hne].
    + rewrite decide_True; [done|]. rewrite fmap_cons. by left.
    + rewrite !fmap_cons, IH. cbn [fst].
      destruct (decide (k ∈ m.*1)) as [Hin|Hnin].
      * rewrite decide_True; [done|]. by right.
      * rewrite decide_False; [done|]. by intros [?|?]%elem_of_cons.
Qed.

(** All the outcomes of a post, in one statement. *)
Lemma post_messages_cases req h :
  (transports h = [] ∧
   post_messages handlePostMessage req h =
     (Json 503 "No active SSE connections", h)) ∨
  (∃ k t,
     transports h ≠ [] ∧
     map_get k (transports h) = Some t ∧
     post_messages handlePostMessage req h =
       hand_over handlePostMessage k t req h).
Proof.
  unfold post_messages.
  destruct (decide (transports h = [])) as [Hm|Hm].
  { left. by rewrite Hm. }
  right. rewrite bool_decide_eq_false_2 by (by destruct (transports h)).
  destruct (is_truthy (find_sessionId req) &&
            has_sessionId T (find_sessionId req) h) eqn:Hnamed.
  - apply andb_true_iff in Hnamed as [_ Hhas].
    unfold has_sessionId, get_sessionId in *.
    destruct (find_sessionId req) as [[sid|?]|]; try done.
    unfold map_has in Hhas. apply bool_decide_eq_true in Hhas as [t Ht].
    exists sid, t. by rewrite Ht.
  - destruct (transports h) as [|[k0 t0] rest]; [done|].
    exists k0, t0. split_and!; [done| |done].
    by rewrite map_get_cons, decide_True.
Qed.

(** X10.  Every post either finds no transport at all, answers 503 and
    changes nothing, or hands the message to exactly one transport of the
    map, once, and leaves the map as it was; the answer is then the
    transport's own, or status 500 with what its handler threw.  The
    handler has no 500 of its own. *)
Theorem post_messages_outcomes req h resp h' :
  post_messages handlePostMessage req h = (resp, h') →
  transports h' = transports h ∧
  ((transports h = [] ∧ resp = Json 503 "No active SSE connections" ∧
    deliveries h' = deliveries h) ∨
   (∃ k t,
      map_get k (transports h) = Some t ∧
      deliveries h' = deliveries h ++ [(k, t, payload req)] ∧
      ((handlePostMessage t (payload req) = Returned tt ∧
        resp = ByTransport) ∨
       (∃ e, handlePostMessage t (payload req) = Threw e ∧
             resp = Json 500 e)))).
Proof.
  destruct (post_messages_cases req h) as [[Hm ->]|(k & t & Hm & Hget & ->)].
  - intros [= <- <-]. split; [done|]. by left.
  - unfold hand_over.
    destruct (handlePostMessage t (payload req)) as [[]|e] eqn:Hh;
      intros [= <- <-]; (split; [done|]); right; exists k, t;
      (split; [done|]); (split; [done|]).
    + by left.
    + right. by exists e.
Qed.

(** X11.  A post that names no open session (no truthy id at all, an id
    that is no string, or a string that is no key of the map) goes to the
    transport that was stored first. *)
Theorem unresolved_goes_to_first req h k0 t0 rest :
  transports h = (k0, t0) :: rest →
  (∀ sid, find_sessionId req = Some (CStr sid) →
          map_get sid (transports h) = None) →
  ∃ resp,
    post_messages handlePostMessage req h =
      (resp, {| transports := transports h;
                deliveries := deliveries h ++ [(k0, t0, payload req)] |}) ∧
    (resp = ByTransport ∨ ∃ e, resp = Json 500 e).
Proof.
  intros Hm Hnone. unfold post_messages. rewrite Hm.
  rewrite bool_decide_eq_false_2 by done.
  assert (has_sessionId T (find_sessionId req) h = false) as ->.
  { unfold has_sessionId. destruct (find_sessionId req) as [[sid|?]|] eqn:Hf;
      try done.
    unfold map_has. rewrite (Hnone sid eq_refl).
    apply bool_decide_eq_false_2. by intros [? [=]]. }
  rewrite andb_false_r.
  destruct (hand_over_deliveries handlePostMessage k0 t0 req h)
    as (resp & -> & Hresp).
  exists resp. by rewrite Hm.
Qed.

(** X12.  A truthy value in the body decides alone: when it names no open
    session, the message goes to the transport stored first, and not to the
    open session that the header names. *)
Theorem body_value_shadows_header req h c b tb k0 t0 rest :
  body_sessionId req = Some c →
  is_truthy (Some c) = true →
  (∀ sid, c = CStr sid → map_get sid (transports h) = None) →
  header_sessionId req = Some b →
  map_get b (transports h) = Some tb →
  transports h = (k0, t0) :: rest →
  k0 ≠ b →
  ∃ resp,
    post_messages handlePostMessage req h =
      (resp, {| transports := transports h;
                deliveries := deliveries h ++ [(k0, t0, payload req)] |}) ∧
    (b, tb, payload req) ∉ [(k0, t0, payload req)].
Proof.
  intros Hbody Htruthy Hnone Hheader Hb Hm Hne.
  assert (find_sessionId req = Some c) as Hfind
    by (unfold find_sessionId; by rewrite Hbody, Htruthy).
  unfold post_messages. rewrite Hm.
  rewrite bool_decide_eq_false_2 by done. rewrite Hfind.
  assert (has_sessionId T (Some c) h = false) as ->.
  { unfold has_sessionId. destruct c as [sid|?]; [|done].
    unfold map_has. rewrite (Hnone sid eq_refl).
    apply bool_decide_eq_false_2. by intros [? [=]]. }
  rewrite andb_false_r.
  destruct (hand_over_deliveries handlePostMessage k0 t0 req h)
    as (resp & -> & Hresp).
  exists resp. rewrite Hm. split; [done|].
  by intros [=]%list_elem_of_singleton.
Qed.

(** X13.  Once a connection is closed, no post is handed to its session
    any more, whatever the request names: a delivery after the close is to
    another key. *)
Theorem closed_session_is_not_served sid req h resp h' :
  post_messages handlePostMessage req (sse_close sid h) = (resp, h') →
  deliveries h' = deliveries h ∨
  ∃ k t, k ≠ sid ∧
         map_get k (transports h) = Some t ∧
         deliveries h' = deliveries h ++ [(k, t, payload req)].
Proof.
  destruct (post_messages_cases req (sse_close sid h))
    as [[Hm ->]|(k & t & Hm & Hget & ->)].
  - intros [= <- <-]. by left.
  - intros Hpost. right. exists k, t.
    simpl in Hget. destruct (decide (k = sid)) as [->|Hne].
    + by rewrite map_get_delete_eq in Hget.
    + rewrite map_get_delete_ne in Hget by done.
      split_and!; [done..|].
      destruct (hand_over_deliveries handlePostMessage k t req
                  (sse_close sid h)) as (resp0 & Hh & _).
      rewrite Hh in Hpost. by injection Hpost as <- <-.
Qed.

(** X14.  Once a transport is stored under a session id, a post whose
    session id is that one is handed to that transport, also when the id was
    in the map before with another transport. *)
Theorem connected_session_is_served sid t req h :
  find_sessionId req = Some (CStr sid) →
  ∃ resp,
    post_messages handlePostMessage req (sse_connect sid t h) =
      (resp, {| transports := map_set sid t (transports h);
                deliveries := deliveries h ++ [(sid, t, payload req)] |}).
Proof.
  intros Hfind. unfold post_messages. simpl.
  rewrite bool_decide_eq_false_2.
  2:{ pose proof (map_get_set_eq sid t (transports h)) as Hget.
      by destruct (map_set sid t (transports h)). }
  rewrite Hfind, (find_sessionId_truthy _ _ Hfind). simpl.
  unfold map_has. simpl. rewrite map_get_set_eq.
  rewrite bool_decide_eq_true_2 by done. simpl.
  destruct (hand_over_deliveries handlePostMessage sid t req
              (sse_connect sid t h)) as (resp & -> & _).
  by exists resp.
Qed.

(** X15.  The keys of the map stay distinct under connect and close. *)
Theorem session_ids_stay_unique sid t (h : Hub T) :
  NoDup (transports h).*1 →
  NoDup (transports (sse_connect sid t h)).*1 ∧
  NoDup (transports (sse_close sid h)).*1.
Proof.
  intros Hnd. simpl. split.
  - rewrite map_set_keys. case_decide; [done|].
    apply NoDup_app. split_and!; [done| |apply NoDup_singleton].
    intros k Hin ->%list_elem_of_singleton. done.
  - unfold map_delete. clear t.
    induction (transports h) as [|[k v] m IH]; [done|].
    rewrite fmap_cons in Hnd. apply NoDup_cons in Hnd as [Hnin Hnd].
    rewrite filter_cons. case_decide; [|by apply IH].
    rewrite fmap_cons. apply NoDup_cons. split; [|by apply IH].
    intros (kv & Hk & [_ Hin]%list_elem_of_filter)%list_elem_of_fmap.
    apply Hnin. apply list_elem_of_fmap. by exists kv.
Qed.

(** X16.  A connection does not change which session is first in the map
    (the one that serves unnamed posts) as long as one is open. *)
Theorem connect_keeps_first sid t (h : Hub T) :
  transports h ≠ [] →
  head (transports (sse_connect sid t h)).*1 = head (transports h).*1.
Proof.
  intros Hne. simpl. destruct (transports h) as [|[k v] m]; [done|].
  rewrite map_set_cons. by case_decide; simplify_eq.
Qed.

(** X17.  Closing a connection undoes its opening: for a session id that
    was not in the map, connect followed by close gives the map back. *)
Theorem connect_close_round_trip sid t (h : Hub T) :
  sid ∉ (transports h).*1 →
  sse_close sid (sse_connect sid t h) = h.
Proof.
  intros Hnin. destruct h as [m ds]. unfold sse_close, sse_connect. simpl in *.
  f_equal. unfold map_delete.
  induction m as [|[k v] m IH].
  - change (map_set sid t []) with [(sid, t)].
    rewrite filter_cons. cbn [fst]. by rewrite decide_False by (by intros ?).
  - rewrite fmap_cons in Hnin. apply not_elem_of_cons in Hnin as [Hne Hnin].
    rewrite map_set_cons, decide_False by done.
    rewrite filter_cons. cbn [fst].
    rewrite decide_True by (by intros ->).
    by rewrite IH.
Qed.

End RegistryMore.

(** ** [POST /upload]: where an upload may land *)

Section UploadFacts.
Import Effects Upload.

Lemma path_step_cases acc seg :
  Path.path_step acc seg =
    if decide (seg = "" ∨ seg = ".") then acc
    else if decide (seg = "..") then removelast acc
    else acc ++ [seg].
Proof. done. Qed.

Lemma segments_no_sep_each p :
  Forall (fun seg => Path.has_sep seg = false) (Path.segments p).
Proof.
  induction p as [|a p IH]; [by repeat constructor|].
  simpl. case_decide as Ha.
  - by constructor.
  - destruct (Path.segments p) as [|seg rest].
    + constructor; [|done]. simpl. by rewrite bool_decide_eq_false_2.
    + apply Forall_cons in IH as [Hseg Hrest]. constructor; [|done].
      simpl. rewrite Hseg. by rewrite bool_decide_eq_false_2.
Qed.

Lemma path_basename_no_sep p : Path.has_sep (path_basename p) = false.
Proof.
  unfold path_basename.
  destruct (last (filter _ (Path.segments p))) as [seg|] eqn:Hlast; [|done].
  apply last_Some_elem_of, list_elem_of_filter in Hlast as [_ Hin].
  pose proof (segments_no_sep_each p) as Hall.
  by apply (proj1 (Forall_forall _ _) Hall).
Qed.

(** X18.  The name sent is cut down to its last component, so the target
    of an upload is an entry directly in the uploads directory, or, for the
    names whose last component is empty, ["."] or [".."], the uploads
    directory itself or its parent: no other place can be named. *)
Theorem upload_target_in_uploads uploadsDir name :
  let seg := path_basename name in
  Path.has_sep seg = false ∧
  (Upload.filePath uploadsDir name = Path.normalize uploadsDir ++ [seg] ∧
   seg ≠ "" ∧ seg ≠ "." ∧ seg ≠ ".." ∨
   Upload.filePath uploadsDir name = Path.normalize uploadsDir ∧
   (seg = "" ∨ seg = ".") ∨
   Upload.filePath uploadsDir name = removelast (Path.normalize uploadsDir) ∧
   seg = "..").
Proof.
  intros seg. pose proof (path_basename_no_sep name) as Hsep.
  split; [done|].
  unfold Upload.filePath, sanitizedFileName, Path.path_join. fold seg.
  rewrite (segments_no_sep seg) by done.
  unfold Path.normalize. rewrite fold_left_app. simpl.
  rewrite path_step_cases.
  destruct (decide (seg = "" ∨ seg = ".")) as [Hd|Hd].
  { right; left. by split. }
  destruct (decide (seg = "..")) as [Hdd|Hdd].
  { right; right. by split. }
  left. split_and!; [done| | |done].
  - intros Heq. apply Hd. by left.
  - intros Heq. apply Hd. by right.
Qed.

Context {W : Type}.
Variable uploadsDir : list string.
Variable env : Env W.

(** X19.  An upload is answered with status 400 exactly when the name or
    the data is missing or falsy, and then nothing is written.  In every
    case at most one write is issued, to the target of the name sent, and a
    success echoes the name as it was sent, next to the target. *)
Theorem upload_answers body s r s' :
  upload uploadsDir env body s = (r, s') →
  (status r = 400 ↔
     name_truthy (fileName body) = false ∨
     data_truthy (fileData body) = false) ∧
  (s' = s ∨
   ∃ name data,
     fileName body = Some (NStr name) ∧
     buffer_from (fileData body) = Some data ∧
     calls s' = calls s ++ [EWriteFile (Upload.filePath uploadsDir name) data] ∧
     world s' =
       (writeFile env (Upload.filePath uploadsDir name) data (world s)).2) ∧
  (status r = 400 → s' = s) ∧
  (∀ orig sz ty p,
     r = Uploaded orig sz ty p →
     fileName body = Some (NStr orig) ∧
     p = Upload.filePath uploadsDir orig ∧
     sz = fileSize body ∧ ty = fileType body ∧
     ∃ data,
       buffer_from (fileData body) = Some data ∧
       (writeFile env p data (world s)).1 = Returned tt).
Proof.
  unfold upload.
  destruct (name_truthy (fileName body)) eqn:Hn,
    (data_truthy (fileData body)) eqn:Hd; simpl;
    try (intros [= <- <-]; split_and!;
         [split; eauto|by left|done|by intros ???? [=]]).
  destruct (fileName body) as [[name|b]|] eqn:Hname; try done.
  2:{ intros [= <- <-]. split_and!; [|by left|done|by intros ???? [=]].
      split; [done|]. by intros [[=]|[=]]. }
  destruct (buffer_from (fileData body)) as [data|] eqn:Hbuf.
  2:{ intros [= <- <-]. split_and!; [|by left|done|by intros ???? [=]].
      split; [done|]. by intros [[=]|[=]]. }
  unfold await.
  destruct (writeFile env (Upload.filePath uploadsDir name) data (world s))
    as [[[]|e] w'] eqn:Hw; intros [= <- <-].
  - split_and!.
    + split; [done|]. by intros [[=]|[=]].
    + right. exists name, data. by rewrite Hw.
    + done.
    + intros orig sz ty p [= <- <- <- <-]. split_and!; [done..|].
      exists data. by rewrite Hw.
  - split_and!.
    + split; [done|]. by intros [[=]|[=]].
    + right. exists name, data. by rewrite Hw.
    + done.
    + by intros ???? [=].
Qed.

End UploadFacts.

Section UploadOnDisk.
Import Effects Upload SpecStore.

Variable uploadsDir : list string.

(** X20.  On a disk where the uploads directory and its parent exist, an
    upload, whatever name it sends, changes at most one file, and that file
    lies directly in the uploads directory: every file elsewhere, the
    directories and the windows are as they were. *)
Theorem upload_stays_in_uploads body s r s' :
  Path.normalize uploadsDir ∈ dirs (world s) →
  removelast (Path.normalize uploadsDir) ∈ dirs (world s) →
  upload uploadsDir (env uploadsDir) body s = (r, s') →
  dirs (world s') = dirs (world s) ∧
  windows (world s') = windows (world s) ∧
  (files (world s') = files (world s) ∨
   ∃ seg data,
     Path.has_sep seg = false ∧ seg ≠ "" ∧
     files (world s') =
       <[Path.normalize uploadsDir ++ [seg] := data]> (files (world s))) ∧
  (∀ p, removelast p ≠ Path.normalize uploadsDir →
        files (world s') !! p = files (world s) !! p).
Proof.
  intros Hdir Hparent. unfold upload.
  destruct (negb _ || negb _); [by intros [= <- <-]; split_and!; eauto|].
  destruct (fileName body) as [[name|b]|];
    try (by intros [= <- <-]; split_and!; eauto).
  destruct (buffer_from (fileData body)) as [data|];
    [|by intros [= <- <-]; split_and!; eauto].
  unfold await. simpl. unfold writeFile.
  set (p := Upload.filePath uploadsDir name).
  assert (p = Path.normalize uploadsDir ∨
          p = removelast (Path.normalize uploadsDir) ∨
          ∃ seg, Path.has_sep seg = false ∧ seg ≠ "" ∧
                 p = Path.normalize uploadsDir ++ [seg]) as Hp.
  { subst p. unfold Upload.filePath, sanitizedFileName, Path.path_join.
    pose proof (path_basename_no_sep name) as Hsep.
    rewrite (segments_no_sep _ Hsep).
    unfold Path.normalize. rewrite fold_left_app. simpl.
    rewrite path_step_cases. repeat case_decide; eauto.
    right; right. eexists. split_and!; [done| |done]. intros Heq. eauto. }
  destruct Hp as [Hp|[Hp|(seg & Hsep & Hne & Hp)]].
  - rewrite decide_True by (right; by rewrite Hp).
    intros [= <- <-]. split_and!; eauto.
  - rewrite decide_True by (right; by rewrite Hp).
    intros [= <- <-]. split_and!; eauto.
  - repeat case_decide; intros [= <- <-]; simpl;
      (split_and!; [done|done| |]); eauto.
    + right. exists seg, data. by rewrite Hp.
    + intros q Hq. rewrite lookup_insert_ne; [done|].
      intros <-. apply Hq. rewrite Hp. apply removelast_last.
Qed.

End UploadOnDisk.

(** ** [GET /api/files] *)

Section ApiFilesFacts.
Import Effects ApiFiles.

Context {W : Type}.
Variable uploadsDir : list string.
Variable readdirSync : list string → W → Outcome (list string).
Variable statSize : list string → W → Outcome nat.

Lemma items_Returned names w l :
  items uploadsDir statSize names w = Returned l →
  name <$> l = names ∧
  Forall (fun it => path it = Path.path_join uploadsDir (name it) ∧
                    statSize (path it) w = Returned (size it)) l.
Proof.
  revert l. induction names as [|f names IH]; intros l; simpl.
  - by intros [= <-].
  - destruct (statSize (Path.path_join uploadsDir f) w) as [sz|e] eqn:Hst;
      [|done].
    destruct (items uploadsDir statSize names w) as [l'|e]; [|done].
    intros [= <-]. destruct (IH l' eq_refl) as [Hnames Hall].
    split; [by rewrite fmap_cons, Hnames|]. by constructor.
Qed.

Lemma items_Threw names w e :
  items uploadsDir statSize names w = Threw e →
  ∃ f, f ∈ names ∧ statSize (Path.path_join uploadsDir f) w = Threw e.
Proof.
  induction names as [|f names IH]; simpl; [done|].
  destruct (statSize (Path.path_join uploadsDir f) w) as [sz|e'] eqn:Hst.
  - destruct (items uploadsDir statSize names w) as [l'|e'']; [done|].
    intros [= ->]. destruct (IH eq_refl) as (f' & Hin & Hf').
    exists f'. split; [by right|done].
  - intros [= ->]. exists f. split; [by left|done].
Qed.

(** X21.  The answer of [GET /api/files] is all or nothing.  A list holds,
    in the order of the directory, exactly its entries with the extension
    [.tsx], each with its path in the uploads directory and its size; its
    names, with the extension removed, are the listing of [ui://list] for
    the same directory.  The fixed error is the answer exactly when the
    directory cannot be read or the size of one of these entries cannot be
    taken. *)
Theorem api_files_all_or_nothing w :
  match api_files uploadsDir readdirSync statSize w with
  | Files l =>
      ∃ names,
        readdirSync uploadsDir w = Returned names ∧
        name <$> l = filter (fun f => Path.extname f = ".tsx") names ∧
        Forall (fun it =>
                  Path.extname (name it) = ".tsx" ∧
                  path it = Path.path_join uploadsDir (name it) ∧
                  statSize (path it) w = Returned (size it)) l ∧
        (fun it => Path.basename (name it) ".tsx") <$> l =
          Lister.windowNames names
  | CouldNotRead =>
      (∃ e, readdirSync uploadsDir w = Threw e) ∨
      (∃ names f e,
         readdirSync uploadsDir w = Returned names ∧
         f ∈ names ∧ Path.extname f = ".tsx" ∧
         statSize (Path.path_join uploadsDir f) w = Threw e)
  end.
Proof.
  unfold api_files.
  destruct (readdirSync uploadsDir w) as [names|e]; [|left; by exists e].
  destruct (items uploadsDir statSize _ w) as [l|e] eqn:Hitems.
  - apply items_Returned in Hitems as [Hnames Hall].
    exists names. split_and!; [done..| |].
    + apply Forall_forall. intros it Hin.
      pose proof (proj1 (Forall_forall _ _) Hall it Hin) as [Hp Hs].
      split_and!; [|done..].
      assert (name it ∈ name <$> l) as Hn by by apply list_elem_of_fmap_2.
      rewrite Hnames in Hn. by apply list_elem_of_filter in Hn as [? _].
    + unfold Lister.windowNames. rewrite <- Hnames.
      by rewrite <- list_fmap_compose.
  - apply items_Threw in Hitems
      as (f & [Hext Hin]%list_elem_of_filter & Hf).
    right. by exists names, f, e.
Qed.

End ApiFilesFacts.

(** ** The earlier tools *)

Section LegacyFacts.
Import Effects Dispatcher.

Context {W : Type}.
Variable uploadsDir : list string.
Variable env : Env W.

(** X22.  The earlier [pop-ui] wrote the content, then requested the open,
    and only then sent the notification; it answered without looking at the
    surface, and never with an error flag.  When the write rejected, it
    rejected too and neither opened nor notified. *)
Theorem legacy_pop_ui_order name tsx s :
  match writeFile env (filePath uploadsDir name) tsx (world s) with
  | (Returned _, w1) =>
      Legacy.pop_ui uploadsDir env name tsx s =
        (Returned {| text := Legacy.created_text name; isError := false |},
         {| world := openFile env (filePath uploadsDir name) w1;
            calls := calls s ++
              [EWriteFile (filePath uploadsDir name) tsx;
               EOpenFile (filePath uploadsDir name);
               ENotification list_changed] |})
  | (Threw e, w1) =>
      Legacy.pop_ui uploadsDir env name tsx s =
        (Threw e,
         {| world := w1;
            calls := calls s ++
              [EWriteFile (filePath uploadsDir name) tsx] |})
  end.
Proof.
  unfold Legacy.pop_ui. unfold_handler. simpl.
  destruct (writeFile env (filePath uploadsDir name) tsx (world s))
    as [[[]|e] w1]; simpl; [|done].
  by rewrite <- !(assoc_L (++)).
Qed.

(** X23.  The earlier [read-ui] never flagged an error: for a surface with
    no state it answered the text ["null"], where the get of the later
    handler answers "not found". *)
Theorem legacy_read_ui_never_fails name json tsx s r :
  (Legacy.read_ui env name s).1 = Returned r →
  isError r = false ∧
  ((readWindow env name (world s)).1 = Returned None →
   text r = "null" ∧
   (pop_ui uploadsDir env name (Some Get) json tsx s).1 =
     Returned (not_found name)).
Proof.
  unfold Legacy.read_ui. rewrite get_run. unfold_handler. simpl.
  destruct (readWindow env name (world s)) as [[st|e] w1]; simpl; [|done].
  intros [= <-]. split; [done|]. by intros [= ->].
Qed.

End LegacyFacts.

(** ** These properties on the sample data *)

Section MoreExamples.
Import Effects Dispatcher.

(** A show in a directory that is not there. *)
Lemma show_write_failure_stops_witness :
  pop_ui Demo.uploads Demo.env "a/b" (Some Show) None (Some "C1") Demo.start =
    (Threw "ENOENT",
     {| world := SpecStore.boot Demo.uploads;
        calls := calls Demo.start ++
          [EReadWindow "a/b";
           EWriteFile (filePath Demo.uploads "a/b") "C1"] |}).
Proof.
  apply (show_write_failure_stops Demo.uploads Demo.env "a/b" None "C1"
           Demo.start None (SpecStore.boot Demo.uploads) "ENOENT"
           (SpecStore.boot Demo.uploads)); reflexivity.
Defined.

(** A show of ["panel"] with a state and no content, once it has reported. *)
Lemma show_state_only_answers_injection_witness :
  pop_ui Demo.uploads Demo.env "panel" (Some Show) (Some "[1]") None
    Sample.reported =
    (Returned {| text := Js.template (Some "[1]"); isError := false |},
     {| world := openFile Demo.env (filePath Demo.uploads "panel")
                   Sample.injected;
        calls := calls Sample.reported ++
          [EReadWindow "panel"; EInjectWindow "panel" (Some "[1]");
           EOpenFile (filePath Demo.uploads "panel")] |}) ∧
  (Some "[1]" = None → Js.template (Some "[1]") = "null").
Proof.
  apply (show_state_only_answers_injection Demo.uploads Demo.env "panel"
           "[1]" Sample.reported "{}" (world Sample.reported) (Some "[1]")
           Sample.injected); reflexivity.
Defined.

(** The answer of a get of a name never shown. *)
Lemma answers_by_mode_witness :
  (not_found "ghost" = not_found "ghost" ∨
   ∃ v, not_found "ghost" = state_result (Some v)) ∧
  (isError (not_found "ghost") = true ↔
     not_found "ghost" = tsx_required ∨
     not_found "ghost" = not_found "ghost" ∨
     not_found "ghost" = invalid_mode "undefined").
Proof.
  apply (answers_by_mode Demo.uploads Demo.env "ghost" (Some Get) None None
           Demo.start (not_found "ghost")).
  reflexivity.
Defined.

(** A directory with one content file and one foreign file. *)
Lemma windowNames_NoDup_witness :
  NoDup (Lister.windowNames ["a.tsx"; "notes.txt"]) ∧
  length (Lister.windowNames ["a.tsx"; "notes.txt"]) ≤
    length ["a.tsx"; "notes.txt"].
Proof.
  apply (windowNames_NoDup ["a.tsx"; "notes.txt"]).
  - by repeat constructor.
  - refine (bool_decide_unpack _ _). vm_compute. exact I.
Defined.

(** In that directory, ["a"] is listed and ["notes"] is not. *)
Lemma windowNames_elem_witness :
  "a" ∈ Lister.windowNames ["a.tsx"; "notes.txt"] ↔
  "a" ≠ "" ∧ fileName "a" ∈ ["a.tsx"; "notes.txt"].
Proof.
  apply (windowNames_elem "a" ["a.tsx"; "notes.txt"]).
  by repeat constructor.
Defined.

Lemma filePath_inj_witness : "panel" = "panel".
Proof.
  apply (filePath_inj Demo.uploads "panel" "panel"); reflexivity.
Defined.

(** A show of ["other"] does not touch the content of ["panel"]. *)
Lemma other_names_content_kept_witness :
  SpecStore.files
    (world (pop_ui Demo.uploads (SpecStore.env Demo.uploads) "other"
              (Some Show) None (Some "C9") Demo.shown).2)
    !! filePath Demo.uploads "panel" =
  SpecStore.files (world Demo.shown) !! filePath Demo.uploads "panel".
Proof.
  apply (other_names_content_kept Demo.uploads "panel" "other" (Some Show)
           None (Some "C9") Demo.shown); [reflexivity..|discriminate].
Defined.

(** The post that names B, with A and B open. *)
Lemma post_messages_outcomes_witness :
  Registry.transports
    {| Registry.transports := Registry.transports Demo.hub_AB;
       Registry.deliveries := [("B", "transport of B", "ping")] |} =
    Registry.transports Demo.hub_AB ∧
  ((Registry.transports Demo.hub_AB = [] ∧
    Registry.ByTransport = Registry.Json 503 "No active SSE connections" ∧
    [("B", "transport of B", "ping")] = Registry.deliveries Demo.hub_AB) ∨
   (∃ k t,
      Registry.map_get k (Registry.transports Demo.hub_AB) = Some t ∧
      [("B", "transport of B", "ping")] =
        Registry.deliveries Demo.hub_AB ++
          [(k, t, Registry.payload Demo.for_B)] ∧
      ((Demo.accept t (Registry.payload Demo.for_B) = Returned tt ∧
        Registry.ByTransport = Registry.ByTransport) ∨
       (∃ e, Demo.accept t (Registry.payload Demo.for_B) = Threw e ∧
             Registry.ByTransport = Registry.Json 500 e)))).
Proof.
  apply (post_messages_outcomes Demo.accept Demo.for_B Demo.hub_AB
           Registry.ByTransport
           {| Registry.transports := Registry.transports Demo.hub_AB;
              Registry.deliveries := [("B", "transport of B", "ping")] |}).
  reflexivity.
Defined.

(** A post that names no session, with A and B open. *)
Lemma unresolved_goes_to_first_witness :
  ∃ resp,
    Registry.post_messages Demo.accept Sample.anonymous Demo.hub_AB =
      (resp,
       {| Registry.transports := Registry.transports Demo.hub_AB;
          Registry.deliveries :=
            Registry.deliveries Demo.hub_AB ++
              [("A", "transport of A",
                Registry.payload Sample.anonymous)] |}) ∧
    (resp = Registry.ByTransport ∨ ∃ e, resp = Registry.Json 500 e).
Proof.
  apply (unresolved_goes_to_first Demo.accept Sample.anonymous Demo.hub_AB
           "A" "transport of A" [("B", "transport of B")]).
  - reflexivity.
  - intros sid Hfind. discriminate Hfind.
Defined.

(** A post whose body carries a number and whose header names B. *)
Lemma body_value_shadows_header_witness :
  ∃ resp,
    Registry.post_messages Demo.accept Sample.numbered Demo.hub_AB =
      (resp,
       {| Registry.transports := Registry.transports Demo.hub_AB;
          Registry.deliveries :=
            Registry.deliveries Demo.hub_AB ++
              [("A", "transport of A",
                Registry.payload Sample.numbered)] |}) ∧
    ("B", "transport of B", Registry.payload Sample.numbered) ∉
      [("A", "transport of A", Registry.payload Sample.numbered)].
Proof.
  apply (body_value_shadows_header Demo.accept Sample.numbered Demo.hub_AB
           (Registry.COther true) "B" "transport of B" "A" "transport of A"
           [("B", "transport of B")]).
  - reflexivity.
  - reflexivity.
  - intros sid Hc. discriminate Hc.
  - reflexivity.
  - reflexivity.
  - reflexivity.
  - discriminate.
Defined.

(** B has closed; the post that names B goes to A. *)
Lemma closed_session_is_not_served_witness :
  [("A", "transport of A", "ping")] = Registry.deliveries Demo.hub_AB ∨
  ∃ k t, k ≠ "B" ∧
         Registry.map_get k (Registry.transports Demo.hub_AB) = Some t ∧
         [("A", "transport of A", "ping")] =
           Registry.deliveries Demo.hub_AB ++
             [(k, t, Registry.payload Demo.for_B)].
Proof.
  apply (closed_session_is_not_served Demo.accept "B" Demo.for_B Demo.hub_AB
           Registry.ByTransport
           {| Registry.transports := [("A", "transport of A")];
              Registry.deliveries := [("A", "transport of A", "ping")] |}).
  reflexivity.
Defined.

(** B connects again, with another transport. *)
Lemma connected_session_is_served_witness :
  ∃ resp,
    Registry.post_messages Demo.accept Demo.for_B
      (Registry.sse_connect "B" "new transport of B" Demo.hub_AB) =
      (resp,
       {| Registry.transports :=
            Registry.map_set "B" "new transport of B"
              (Registry.transports Demo.hub_AB);
          Registry.deliveries :=
            Registry.deliveries Demo.hub_AB ++
              [("B", "new transport of B",
                Registry.payload Demo.for_B)] |}).
Proof.
  apply (connected_session_is_served Demo.accept "B" "new transport of B"
           Demo.for_B Demo.hub_AB).
  reflexivity.
Defined.

Lemma session_ids_stay_unique_witness :
  NoDup (Registry.transports
           (Registry.sse_connect "C" "transport of C" Demo.hub_AB)).*1 ∧
  NoDup (Registry.transports (Registry.sse_close "C" Demo.hub_AB)).*1.
Proof.
  apply (session_ids_stay_unique "C" "transport of C" Demo.hub_AB).
  refine (bool_decide_unpack _ _). vm_compute. exact I.
Defined.

Lemma connect_keeps_first_witness :
  head (Registry.transports
          (Registry.sse_connect "C" "transport of C" Demo.hub_AB)).*1 =
    head (Registry.transports Demo.hub_AB).*1.
Proof.
  apply (connect_keeps_first "C" "transport of C" Demo.hub_AB).
  discriminate.
Defined.

Lemma connect_close_round_trip_witness :
  Registry.sse_close "C"
    (Registry.sse_connect "C" "transport of C" Demo.hub_AB) = Demo.hub_AB.
Proof.
  apply (connect_close_round_trip "C" "transport of C" Demo.hub_AB).
  refine (bool_decide_unpack _ _). vm_compute. exact I.
Defined.

(** An upload under the name [../../etc/passwd]. *)
Lemma upload_answers_witness :
  let r :=
    Upload.Uploaded "../../etc/passwd" (Some "3") (Some "text/plain")
      Sample.passwd_path in
  (Upload.status r = 400 ↔
     Upload.name_truthy (Upload.fileName Sample.escaping) = false ∨
     Upload.data_truthy (Upload.fileData Sample.escaping) = false) ∧
  (Sample.uploaded = Demo.start ∨
   ∃ name data,
     Upload.fileName Sample.escaping = Some (Upload.NStr name) ∧
     Upload.buffer_from (Upload.fileData Sample.escaping) = Some data ∧
     calls Sample.uploaded =
       calls Demo.start ++
         [EWriteFile (Upload.filePath Demo.uploads name) data] ∧
     world Sample.uploaded =
       (writeFile Demo.env (Upload.filePath Demo.uploads name) data
          (world Demo.start)).2) ∧
  (Upload.status r = 400 → Sample.uploaded = Demo.start) ∧
  (∀ orig sz ty p,
     r = Upload.Uploaded orig sz ty p →
     Upload.fileName Sample.escaping = Some (Upload.NStr orig) ∧
     p = Upload.filePath Demo.uploads orig ∧
     sz = Upload.fileSize Sample.escaping ∧
     ty = Upload.fileType Sample.escaping ∧
     ∃ data,
       Upload.buffer_from (Upload.fileData Sample.escaping) = Some data ∧
       (writeFile Demo.env p data (world Demo.start)).1 = Returned tt).
Proof.
  apply (upload_answers Demo.uploads Demo.env Sample.escaping Demo.start
           (Upload.Uploaded "../../etc/passwd" (Some "3") (Some "text/plain")
              Sample.passwd_path)
           Sample.uploaded).
  reflexivity.
Defined.

(** An object that is no array and that [Buffer.from] takes (one with a
    [length], or a serialised buffer) is written like an array; a number
    is answered with status 500 and nothing is written. *)
Example upload_of_objects :
  let body data := {|
    Upload.fileName := Some (Upload.NStr "a.bin");
    Upload.fileType := None;
    Upload.fileSize := None;
    Upload.fileData := Some data
  |} in
  let target := Demo.uploads ++ ["a.bin"] in
  (Upload.upload Demo.uploads Demo.env (body (Upload.FArrayLike "abc"))
     Demo.start).1 = Upload.Uploaded "a.bin" None None target ∧
  calls (Upload.upload Demo.uploads Demo.env (body (Upload.FArrayLike "abc"))
           Demo.start).2 = [EWriteFile target "abc"] ∧
  Upload.upload Demo.uploads Demo.env (body (Upload.FOther true))
    Demo.start = (Upload.Failed "TypeError", Demo.start).
Proof. split_and!; reflexivity. Qed.

Lemma upload_stays_in_uploads_witness :
  SpecStore.dirs (world Sample.uploaded) =
    SpecStore.dirs (world Demo.start) ∧
  SpecStore.windows (world Sample.uploaded) =
    SpecStore.windows (world Demo.start) ∧
  (SpecStore.files (world Sample.uploaded) =
     SpecStore.files (world Demo.start) ∨
   ∃ seg data,
     Path.has_sep seg = false ∧ seg ≠ "" ∧
     SpecStore.files (world Sample.uploaded) =
       <[Path.normalize Demo.uploads ++ [seg] := data]>
         (SpecStore.files (world Demo.start))) ∧
  (∀ p, removelast p ≠ Path.normalize Demo.uploads →
        SpecStore.files (world Sample.uploaded) !! p =
          SpecStore.files (world Demo.start) !! p).
Proof.
  apply (upload_stays_in_uploads Demo.uploads Sample.escaping Demo.start
           (Upload.Uploaded "../../etc/passwd" (Some "3") (Some "text/plain")
              Sample.passwd_path)
           Sample.uploaded).
  - refine (bool_decide_unpack _ _). vm_compute. exact I.
  - refine (bool_decide_unpack _ _). vm_compute. exact I.
  - reflexivity.
Defined.

(** The list of [GET /api/files] for the sample directory. *)
Example api_files_sample :
  ApiFiles.api_files Demo.uploads Sample.readdir Sample.stat tt =
    ApiFiles.Files
      [{| ApiFiles.name := "a.tsx";
          ApiFiles.path := ["home"; "user"; "uploads"; "a.tsx"];
          ApiFiles.size := 2 |}].
Proof. reflexivity. Qed.

(** The earlier [read-ui] on a name never shown. *)
Lemma legacy_read_ui_never_fails_witness :
  isError (state_result None) = false ∧
  ((readWindow Demo.env "ghost" (world Demo.start)).1 = Returned None →
   text (state_result None) = "null" ∧
   (pop_ui Demo.uploads Demo.env "ghost" (Some Get) None None
      Demo.start).1 = Returned (not_found "ghost")).
Proof.
  apply (legacy_read_ui_never_fails Demo.uploads Demo.env "ghost" None None
           Demo.start (state_result None)).
  reflexivity.
Defined.

End MoreExamples.
